(** * Index backup and restore: the paginated export/import driver

    Shallow embedding of the notebook
    [demo-python/code/utilities/index-backup-restore/azure-search-backup-and-restore.ipynb]
    (functions [total_count], [search_results_with_filter],
    [search_results_without_filter], [backup_and_restore_index] and
    [verify_counts]) and the properties of its design contract.

    The search service and its SDK are outside the repository.  They enter
    the development as interfaces: what a search call answers, what a bulk
    upload answers, and how three attribute lookups on SDK objects resolve.
    A reference source service (filter, order, top, paging over a finite
    collection) is given for the statements that speak about collections. *)

From stdpp Require Import base option list sorting strings gmap pretty.

(** * Data model *)

(** A document is a Python [dict] from field names to values; a page is the
    [list] made from one page of a paged search result. *)
Abbreviation document := (gmap string string).
Abbreviation page := (list document).

(** Field descriptor of the index definition.  The SDK types the capability
    flags as optional booleans, and the code compares them with [True]. *)
Record search_field := {
  name : string;
  key : option bool;
  hidden : option bool;
  sortable : option bool;
  filterable : option bool
}.

Record search_index := {
  index_name : string;
  fields : list search_field
}.

(** [x == True] and the truth value of an optional boolean coincide. *)
Definition is_true (b : option bool) : bool :=
  match b with Some true => true | _ => false end.

(** The filter text [f"{field} gt '{value}'"] handed to the service. *)
Inductive odata_filter := FieldGt (field value : string).

(** Keyword arguments of [search_client.search]. *)
Record search_request := {
  search_text : string;
  top : N;
  order_by : option string;
  filter_expr : option odata_filter;
  include_total_count : bool
}.

(** What a search call gives back: the pages [by_page()] iterates over, and
    the total [get_count()] reports. *)
Record search_response := {
  by_page : list page;
  get_count : option nat
}.

(** One entry of the bulk upload answer. *)
Record indexing_result := {
  result_key : string;
  succeeded : bool;
  error_message : option string
}.

Inductive exn :=
| UnboundLocalError (var : string)
| AttributeError (attr : string)
| KeyError (k : string)
| IndexError
| PyException (msg : string).

#[global] Instance search_field_eq_dec : EqDecision search_field.
Proof. solve_decision. Defined.
#[global] Instance search_index_eq_dec : EqDecision search_index.
Proof. solve_decision. Defined.
#[global] Instance odata_filter_eq_dec : EqDecision odata_filter.
Proof. solve_decision. Defined.
#[global] Instance search_request_eq_dec : EqDecision search_request.
Proof. solve_decision. Defined.
#[global] Instance indexing_result_eq_dec : EqDecision indexing_result.
Proof. solve_decision. Defined.
#[global] Instance exn_eq_dec : EqDecision exn.
Proof. solve_decision. Defined.

(** * The collaborators *)

(** The source service is only read, and is not mutated during the export:
    its answers are functions of the request alone. *)
Record source_service := {
  get_index : string → search_index;
  search : search_request → search_response;
  get_document_count : nat
}.

(** The target service, over its own state [T]. *)
Record target_service (T : Type) := {
  create_or_update_index : T → search_index → T;
  upload_documents : T → page → list indexing_result * T;
  target_document_count : T → nat
}.
Arguments create_or_update_index {T}.
Arguments upload_documents {T}.
Arguments target_document_count {T}.

(** The three attribute lookups of the failure branch, on objects the SDK
    builds: [result.index_of(item)], [page[i].id] and [item.error.message]. *)
Record object_model := {
  index_of : list indexing_result → indexing_result → exn + nat;
  attr_id : document → exn + string;
  attr_error_message : indexing_result → exn + string
}.

(** The objects as the SDK makes them: the upload answer is a plain [list]
    (it has [index], no [index_of]), a search hit is a [dict] (no attribute
    [id]), and an indexing result carries [error_message], not [error]. *)
Definition sdk_objects : object_model := {|
  index_of := λ _ _, inl (AttributeError "index_of");
  attr_id := λ _, inl (AttributeError "id");
  attr_error_message := λ _, inl (AttributeError "error")
|}.

(** Client handles made by [create_clients]: no call is issued yet. *)
Record search_client := {
  endpoint : string;
  credential : string;
  client_index_name : string
}.

Definition create_clients (endpoint credential index_name : string)
  : search_client * (string * string) :=
  ({| endpoint := endpoint; credential := credential;
      client_index_name := index_name |},
   (endpoint, credential)).

#[global] Instance search_client_eq_dec : EqDecision search_client.
Proof. solve_decision. Defined.

(** * The page generators *)

Definition top_limit : N := 100000.

Definition star : string := "*".

Definition total_count_request : search_request :=
  {| search_text := star; top := 0%N; order_by := None; filter_expr := None;
     include_total_count := true |}.

Definition total_count (src : source_service) : option nat :=
  get_count (search src total_count_request).

Definition first_request (key_field_name : string) : search_request :=
  {| search_text := star; top := top_limit; order_by := Some key_field_name;
     filter_expr := None; include_total_count := false |}.

Definition next_request (key_field_name value : string) : search_request :=
  {| search_text := star; top := top_limit; order_by := Some key_field_name;
     filter_expr := Some (FieldGt key_field_name value);
     include_total_count := false |}.

Definition unfiltered_request : search_request :=
  {| search_text := star; top := top_limit; order_by := None;
     filter_expr := None; include_total_count := false |}.

(** The frame of a suspended generator: not yet entered, inside
    [for page in response] with the pages still to come, or finished. *)
Inductive gen_frame :=
| NotStarted
| InResponse (last_item : option document) (rest : list page)
| Exhausted.

Inductive gen_mode := WithFilter (key_field_name : string) | WithoutFilter.

Record generator := { mode : gen_mode; frame : gen_frame }.

#[global] Instance gen_frame_eq_dec : EqDecision gen_frame.
Proof. solve_decision. Defined.
#[global] Instance gen_mode_eq_dec : EqDecision gen_mode.
Proof. solve_decision. Defined.
#[global] Instance generator_eq_dec : EqDecision generator.
Proof. solve_decision. Defined.

(** One step of a generator body. *)
Inductive gen_result :=
| Yielded (p : page) (f : gen_frame)
| Queried (req : search_request) (f : gen_frame)
| Skipped (f : gen_frame)
| Finished
| GenRaised (e : exn).

(** Truth value of a [dict]: empty is false. *)
Definition dict_truthy (d : document) : bool := bool_decide (d ≠ ∅).

Definition search_results_with_filter (src : source_service)
    (key_field_name : string) (f : gen_frame) : gen_result :=
  match f with
  | NotStarted =>
      let req := first_request key_field_name in
      Queried req (InResponse None (by_page (search src req)))
  | InResponse last_item (p :: rest) =>
      if bool_decide (0 < length p)
      then Yielded p (InResponse (last p) rest)
      else Skipped (InResponse None rest)
  | InResponse last_item [] =>
      match last_item with
      | Some d =>
          if dict_truthy d then
            match d !! key_field_name with
            | Some v =>
                let req := next_request key_field_name v in
                Queried req (InResponse last_item (by_page (search src req)))
            | None => GenRaised (KeyError key_field_name)
            end
          else Finished
      | None => Finished
      end
  | Exhausted => Finished
  end.

Definition search_results_without_filter (src : source_service)
    (f : gen_frame) : gen_result :=
  match f with
  | NotStarted =>
      Queried unfiltered_request
        (InResponse None (by_page (search src unfiltered_request)))
  | InResponse last_item (p :: rest) => Yielded p (InResponse last_item rest)
  | InResponse _ [] => Finished
  | Exhausted => Finished
  end.

Definition gen_step (src : source_service) (g : generator) : gen_result :=
  match mode g with
  | WithFilter key_field_name =>
      search_results_with_filter src key_field_name (frame g)
  | WithoutFilter => search_results_without_filter src (frame g)
  end.

Definition resume (g : generator) (f : gen_frame) : generator :=
  {| mode := mode g; frame := f |}.

(** What a generator does when driven alone: its queries and its pages. *)
Inductive gen_event := GQuery (req : search_request) | GYield (p : page).

Inductive gen_status := GFinished | GRaised (e : exn) | GOutOfFuel.

#[global] Instance gen_event_eq_dec : EqDecision gen_event.
Proof. solve_decision. Defined.
#[global] Instance gen_status_eq_dec : EqDecision gen_status.
Proof. solve_decision. Defined.

Fixpoint gen_run (src : source_service) (fuel : nat) (g : generator)
  : list gen_event * gen_status :=
  match fuel with
  | 0 => ([], GOutOfFuel)
  | S fuel' =>
      match gen_step src g with
      | Yielded p f =>
          let '(evs, st) := gen_run src fuel' (resume g f) in (GYield p :: evs, st)
      | Queried req f =>
          let '(evs, st) := gen_run src fuel' (resume g f) in (GQuery req :: evs, st)
      | Skipped f => gen_run src fuel' (resume g f)
      | Finished => ([], GFinished)
      | GenRaised e => ([], GRaised e)
      end
  end.

Definition yielded (evs : list gen_event) : list page :=
  omap (λ e, match e with GYield p => Some p | GQuery _ => None end) evs.

Definition queries (evs : list gen_event) : list search_request :=
  omap (λ e, match e with GQuery r => Some r | GYield _ => None end) evs.

(** * The driver *)

Inductive event :=
| EvGetIndex (index : string)
| EvCreateOrUpdateIndex (index : search_index)
| EvSearch (req : search_request)
| EvUploadDocuments (documents : page)
| EvProgressBar (total : option nat)
| EvProgressUpdate (n : nat)
| EvPrint (line : string).

#[global] Instance event_eq_dec : EqDecision event.
Proof. solve_decision. Defined.

(** State of a run: the target service, everything the run did so far in
    order, the counter of the progress bar, and the two failure locals. *)
Record run_state (T : Type) := {
  target : T;
  trace : list event;
  progress_n : nat;
  failed_documents : nat;
  failed_keys : list string
}.
Arguments target {T}.
Arguments trace {T}.
Arguments progress_n {T}.
Arguments failed_documents {T}.
Arguments failed_keys {T}.

Inductive outcome (A : Type) :=
| Returned (a : A)
| Raised (e : exn)
| OutOfFuel.
Arguments Returned {A}.
Arguments Raised {A}.
Arguments OutOfFuel {A}.

Definition initial_state {T} (t : T) : run_state T :=
  {| target := t; trace := []; progress_n := 0; failed_documents := 0;
     failed_keys := [] |}.

Definition emit {T} (e : event) (s : run_state T) : run_state T :=
  {| target := target s; trace := trace s ++ [e];
     progress_n := progress_n s; failed_documents := failed_documents s;
     failed_keys := failed_keys s |}.

Definition print {T} (line : string) (s : run_state T) : run_state T :=
  emit (EvPrint line) s.

Definition set_target {T} (t : T) (s : run_state T) : run_state T :=
  {| target := t; trace := trace s; progress_n := progress_n s;
     failed_documents := failed_documents s; failed_keys := failed_keys s |}.

(** [progress_bar.update(n)] *)
Definition progress_update {T} (n : nat) (s : run_state T) : run_state T :=
  {| target := target s; trace := trace s ++ [EvProgressUpdate n];
     progress_n := progress_n s + n; failed_documents := failed_documents s;
     failed_keys := failed_keys s |}.

Definition count_failure {T} (s : run_state T) : run_state T :=
  {| target := target s; trace := trace s; progress_n := progress_n s;
     failed_documents := failed_documents s + 1; failed_keys := failed_keys s |}.

Definition append_failed_key {T} (k : string) (s : run_state T) : run_state T :=
  {| target := target s; trace := trace s; progress_n := progress_n s;
     failed_documents := failed_documents s; failed_keys := failed_keys s ++ [k] |}.

(** The loop over the fields of the index definition: the hidden fields in
    order, and the local [key_field], unbound ([None]) until a field with
    [key == True] is met and rebound at each further one. *)
Definition scan_fields (fs : list search_field)
  : list search_field * option search_field :=
  foldl (λ '(non_retrievable_fields, key_field) field,
           (if is_true (hidden field)
            then non_retrievable_fields ++ [field] else non_retrievable_fields,
            if is_true (key field) then Some field else key_field))
        ([], None) fs.

(** Truth value of an SDK field object: the class defines neither
    [__bool__] nor [__len__]. *)
Definition object_truthy (_ : search_field) : bool := true.

Definition rename (target_index_name : string) (index : search_index)
  : search_index :=
  {| index_name := target_index_name; fields := fields index |}.

Definition can_use_filter (key_field : search_field) : bool :=
  is_true (sortable key_field) && is_true (filterable key_field).

Definition all_documents (key_field : search_field) : generator :=
  if can_use_filter key_field
  then {| mode := WithFilter (name key_field); frame := NotStarted |}
  else {| mode := WithoutFilter; frame := NotStarted |}.

Definition non_retrievable_warning (fs : list search_field) : string :=
  "WARNING: The following fields are not marked as retrievable and cannot be backed up and restored: "
  +:+ String.concat ", " (name <$> fs).

Definition truncation_warning : string :=
  "WARNING: The key field is not filterable or not sortable. A maximum of 100,000 records can be backed up and restored.".

(** [repr] of a list of plain strings. *)
Definition repr_keys (ks : list string) : string :=
  "[" +:+ String.concat ", " ((λ k, "'" +:+ k +:+ "'") <$> ks) +:+ "]".

Section driver.
Context {T : Type}.
Context (src : source_service) (tgt : target_service T) (om : object_model).

(** [for item in result]: the state at the end, with the exception that
    ended the loop early, if any. *)
Fixpoint scan_result (p : page) (result items : list indexing_result)
    (s : run_state T) : option exn * run_state T :=
  match items with
  | [] => (None, s)
  | item :: items' =>
      if succeeded item then scan_result p result items' s
      else
        let s := count_failure s in
        match index_of om result item with
        | inl e => (Some e, s)
        | inr i =>
            match p !! i with
            | None => (Some IndexError, s)
            | Some d =>
                match attr_id om d with
                | inl e => (Some e, s)
                | inr k =>
                    let s := append_failed_key k s in
                    match attr_error_message om item with
                    | inl e => (Some e, s)
                    | inr m =>
                        scan_result p result items'
                          (print ("Document upload error: " +:+ m) s)
                    end
                end
            end
        end
  end.

(** The body of [for page in all_documents], from the upload on. *)
Definition restore_page (p : page) (s : run_state T)
  : option exn * run_state T :=
  let '(result, t) := upload_documents tgt (target s) p in
  let s := set_target t (emit (EvUploadDocuments p) s) in
  let s := progress_update (length result) s in
  scan_result p result result s.

(** [for page in all_documents]: each turn resumes the generator. *)
Fixpoint restore_pages (fuel : nat) (g : generator) (s : run_state T)
  : outcome generator * run_state T :=
  match fuel with
  | 0 => (OutOfFuel, s)
  | S fuel' =>
      match gen_step src g with
      | Finished => (Returned (resume g Exhausted), s)
      | GenRaised e => (Raised e, s)
      | Skipped f => restore_pages fuel' (resume g f) s
      | Queried req f => restore_pages fuel' (resume g f) (emit (EvSearch req) s)
      | Yielded p f =>
          match restore_page p s with
          | (Some e, s) => (Raised e, s)
          | (None, s) => restore_pages fuel' (resume g f) s
          end
      end
  end.

Definition summary (source_index_name target_index_name : string)
    (s : run_state T) : run_state T :=
  let s :=
    if bool_decide (0 < failed_documents s)
    then print ("Failed document keys: " +:+ repr_keys (failed_keys s))
           (print ("Failed documents: " +:+ pretty (failed_documents s)) s)
    else print "All documents uploaded successfully." s in
  print ("Successfully backed up '" +:+ source_index_name
         +:+ "' and restored to '" +:+ target_index_name +:+ "'") s.

(** The run from the creation of the target index on, once [key_field]
    is bound and passed the check. *)
Definition restore_with_key_field (fuel : nat)
    (source_search_client target_search_client : search_client)
    (source_index : search_index) (non_retrievable_fields : list search_field)
    (key_field : search_field)
    (source_index_name target_index_name : string) (s : run_state T)
  : outcome (search_client * search_client * generator) * run_state T :=
  let s :=
    if bool_decide (0 < length non_retrievable_fields)
    then print (non_retrievable_warning non_retrievable_fields) s else s in
  let source_index := rename target_index_name source_index in
  let s := set_target (create_or_update_index tgt (target s) source_index)
             (emit (EvCreateOrUpdateIndex source_index) s) in
  let document_count := total_count src in
  let s := emit (EvSearch total_count_request) s in
  let s := if negb (can_use_filter key_field)
           then print truncation_warning s else s in
  let s := print "Backing up and restoring documents:" s in
  let s := emit (EvProgressBar document_count) s in
  match restore_pages fuel (all_documents key_field) s with
  | (Returned g, s) =>
      (Returned (source_search_client, target_search_client, g),
       summary source_index_name target_index_name s)
  | (Raised e, s) => (Raised e, s)
  | (OutOfFuel, s) => (OutOfFuel, s)
  end.

Definition backup_and_restore_index (fuel : nat)
    (source_endpoint source_key source_index_name
     target_endpoint target_key target_index_name : string) (t : T)
  : outcome (search_client * search_client * generator) * run_state T :=
  let source_search_client :=
    (create_clients source_endpoint source_key source_index_name).1 in
  let target_search_client :=
    (create_clients target_endpoint target_key target_index_name).1 in
  let s := emit (EvGetIndex source_index_name) (initial_state t) in
  let source_index := get_index src source_index_name in
  let '(non_retrievable_fields, key_field) := scan_fields (fields source_index) in
  match key_field with
  | None => (Raised (UnboundLocalError "key_field"), s)
  | Some key_field =>
      if negb (object_truthy key_field)
      then (Raised (PyException "Key Field Not Found"), s)
      else restore_with_key_field fuel source_search_client target_search_client
             source_index non_retrievable_fields key_field
             source_index_name target_index_name s
  end.

(** [verify_counts] has no [return]: the value is [None] on every path. *)
Definition verify_counts (t : T) : option bool * list string :=
  let source_document_count := get_document_count src in
  let target_document_count := target_document_count tgt t in
  (None,
   [ "Source document count: " +:+ pretty source_document_count;
     "Target document count: " +:+ pretty target_document_count;
     if bool_decide (source_document_count = target_document_count)
     then "Document counts match."
     else "Document counts do not match." ]).
End driver.

(** * Reference services *)

(** Pages of at most [cap] hits each; an empty result still comes as one
    (empty) page, as the SDK's page iterator always performs its first
    fetch. *)
Fixpoint chunks {A} (fuel cap : nat) (l : list A) : list (list A) :=
  match fuel with
  | 0 => []
  | S fuel' =>
      match l with
      | [] => []
      | _ => take cap l :: chunks fuel' cap (drop cap l)
      end
  end.

Definition paged {A} (cap : nat) (hits : list A) : list (list A) :=
  match hits with
  | [] => [[]]
  | _ => chunks (length hits) cap hits
  end.

Section reference_source.
(** The order of the service on key values. *)
Context (key_le : relation string) `{!RelDecision key_le}.

Definition field_value (f : string) (d : document) : string :=
  default EmptyString (d !! f).

Definition doc_le (f : string) : relation document :=
  λ d1 d2, key_le (field_value f d1) (field_value f d2).

#[global] Instance doc_le_dec f : RelDecision (doc_le f).
Proof. intros d1 d2. unfold doc_le. apply _. Defined.

(** [field gt 'value']: a document without the field does not match. *)
Definition matches (flt : option odata_filter) (d : document) : Prop :=
  match flt with
  | None => True
  | Some (FieldGt f v) =>
      match d !! f with
      | Some x => ¬ key_le x v
      | None => False
      end
  end.

#[global] Instance matches_dec flt d : Decision (matches flt d).
Proof.
  destruct flt as [[f v]|]; simpl; [destruct (d !! f)|]; apply _.
Defined.

Definition ordered (by_field : option string) (docs : list document)
  : list document :=
  match by_field with
  | None => docs
  | Some f => merge_sort (doc_le f) docs
  end.

Definition reference_search (docs : list document) (cap : nat)
    (req : search_request) : search_response :=
  let matching :=
    filter (matches (filter_expr req)) (ordered (order_by req) docs) in
  let hits := take (N.to_nat (top req)) matching in
  {| by_page := paged cap hits;
     get_count := if include_total_count req
                  then Some (length matching) else None |}.

Definition reference_source (index : search_index) (docs : list document)
    (cap : nat) : source_service :=
  {| get_index := λ _, index;
     search := reference_search docs cap;
     get_document_count := length docs |}.
End reference_source.

(** A target that stores documents under the value of one field, and
    refuses those [rejects] gives a message for. *)
Definition store := (option search_index * gmap string document)%type.

Definition upload_one (id_field : string) (rejects : document → option string)
    (d : document) (t : store) : indexing_result * store :=
  let k := field_value id_field d in
  match rejects d with
  | Some m => ({| result_key := k; succeeded := false; error_message := Some m |}, t)
  | None => ({| result_key := k; succeeded := true; error_message := None |},
             (t.1, <[k := d]> t.2))
  end.

Fixpoint upload_all (id_field : string) (rejects : document → option string)
    (p : page) (t : store) : list indexing_result * store :=
  match p with
  | [] => ([], t)
  | d :: p' =>
      let '(r, t) := upload_one id_field rejects d t in
      let '(rs, t) := upload_all id_field rejects p' t in
      (r :: rs, t)
  end.

Definition reference_target (id_field : string)
    (rejects : document → option string) : target_service store :=
  {| create_or_update_index := λ t index, (Some index, t.2);
     upload_documents := λ t p, upload_all id_field rejects p t;
     target_document_count := λ t, size t.2 |}.

(** Objects on which the three lookups resolve, to the values given. *)
Definition resolved (idx : list indexing_result → indexing_result → nat)
    (idf : document → string) (msgf : indexing_result → string)
  : object_model := {|
  index_of := λ result item, inr (idx result item);
  attr_id := λ d, inr (idf d);
  attr_error_message := λ item, inr (msgf item)
|}.




(** First position of an item in an upload answer, as [list.index]. *)
Fixpoint position (item : indexing_result) (l : list indexing_result) : nat :=
  match l with
  | [] => 0
  | x :: l' => if decide (x = item) then 0 else S (position item l')
  end.

Definition resolving_objects : object_model :=
  resolved (λ result item, position item result)
    (field_value "id")
    (λ item, default EmptyString (error_message item)).

(** The counter values a bar goes through when advanced by each of [l]. *)
Fixpoint running_total (n : nat) (l : list nat) : list nat :=
  match l with
  | [] => []
  | k :: l' => (n + k) :: running_total (n + k) l'
  end.

(** The lines at the end of a completed run. *)
Definition summary_lines (source_index_name target_index_name : string)
    (failed_documents : nat) (failed_keys : list string) : list string :=
  (if bool_decide (0 < failed_documents)
   then [ "Failed documents: " +:+ pretty failed_documents;
          "Failed document keys: " +:+ repr_keys failed_keys ]
   else [ "All documents uploaded successfully." ])
  ++ [ "Successfully backed up '" +:+ source_index_name
       +:+ "' and restored to '" +:+ target_index_name +:+ "'" ].

(** * Sample data *)

Definition doc (k : string) : document := {[ "id" := k ]}.

Definition id_field : search_field :=
  {| name := "id"; key := Some true; hidden := Some false;
     sortable := Some true; filterable := Some true |}.

Definition sample_index : search_index :=
  {| index_name := "source"; fields := [id_field] |}.

Definition sample_docs : list document := [doc "k6"; doc "k4"; doc "k5"].

Definition rejects_k5 (d : document) : option string :=
  if decide (d !! "id" = Some "k5") then Some "conflict" else None.

Definition no_store : store := (None, ∅).

(** * Reading the trace *)

Definition uploaded (tr : list event) : list page :=
  omap (λ e, match e with EvUploadDocuments p => Some p | _ => None end) tr.

Definition searches (tr : list event) : list search_request :=
  omap (λ e, match e with EvSearch r => Some r | _ => None end) tr.

Definition printed (tr : list event) : list string :=
  omap (λ e, match e with EvPrint l => Some l | _ => None end) tr.

(** The calls that change the target service. *)
Definition mutates_target (e : event) : bool :=
  match e with
  | EvCreateOrUpdateIndex _ | EvUploadDocuments _ => true
  | _ => false
  end.

(** The counter of the progress bar after each of its updates. *)
Fixpoint bar_history (n : nat) (tr : list event) : list nat :=
  match tr with
  | [] => []
  | EvProgressUpdate k :: tr' => (n + k) :: bar_history (n + k) tr'
  | _ :: tr' => bar_history n tr'
  end.

(** The uploads and the progress updates of a trace, in order. *)
Definition is_page_event (e : event) : bool :=
  match e with
  | EvUploadDocuments _ | EvProgressUpdate _ => true
  | _ => false
  end.

Definition page_events (tr : list event) : list event :=
  filter (λ e, is_page_event e) tr.

(** The fields marked as key, and those not retrievable, in schema order. *)
Definition key_fields (fs : list search_field) : list search_field :=
  filter (λ f, is_true (key f)) fs.

Definition hidden_fields (fs : list search_field) : list search_field :=
  filter (λ f, is_true (hidden f)) fs.

(** A key field that cannot be sorted on. *)
Definition unsortable_id_field : search_field :=
  {| name := "id"; key := Some true; hidden := Some false;
     sortable := Some false; filterable := Some true |}.

Definition unsortable_index : search_index :=
  {| index_name := "source"; fields := [unsortable_id_field] |}.

Definition accepts_all (d : document) : option string := None.

(** A source whose follow-up fetches give no page at all. *)
Definition stalling_source : source_service :=
  {| get_index := λ _, sample_index;
     search := λ req,
       match filter_expr req with
       | None => {| by_page := [[doc "k1"]]; get_count := None |}
       | Some _ => {| by_page := []; get_count := None |}
       end;
     get_document_count := 1 |}.

(** An index definition with two fields marked as key. *)
Definition second_key_field : search_field :=
  {| name := "code"; key := Some true; hidden := Some false;
     sortable := Some false; filterable := Some true |}.

Definition two_key_index : search_index :=
  {| index_name := "source"; fields := [id_field; second_key_field] |}.

(** An index definition without a key field. *)
Definition plain_field : search_field :=
  {| name := "title"; key := Some false; hidden := None;
     sortable := None; filterable := None |}.

Definition keyless_index : search_index :=
  {| index_name := "source"; fields := [plain_field] |}.

(** Services that only count. *)
Definition counting_source (n : nat) : source_service :=
  {| get_index := λ _, sample_index;
     search := λ _, {| by_page := [[]]; get_count := Some n |};
     get_document_count := n |}.

Definition accepted (d : document) : indexing_result :=
  {| result_key := field_value "id" d; succeeded := true;
     error_message := None |}.

Definition counting_target : target_service nat :=
  {| create_or_update_index := λ t _, t;
     upload_documents := λ t p, (accepted <$> p, t + length p);
     target_document_count := λ t, t |}.

(** What one page leaves among the uploads and progress updates. *)
Definition page_record (p : page) : list event :=
  [EvUploadDocuments p; EvProgressUpdate (length p)].

(** Every upload is followed by the update of the bar by the size of the
    page, and the counter is the number of documents uploaded so far. *)
Definition progress_inv {T} (s : run_state T) : Prop :=
  page_events (trace s) = uploaded (trace s) ≫= page_record
  ∧ progress_n s = sum_list_with length (uploaded (trace s)).

(** In unfiltered mode: the mode stays, no query so far carried a filter,
    and the truncation warning was printed. *)
Definition unfiltered_inv {T} (g : generator) (s : run_state T) : Prop :=
  mode g = WithoutFilter
  ∧ Forall (λ req, filter_expr req = None) (searches (trace s))
  ∧ EvPrint truncation_warning ∈ trace s.

(** How a run of the loop ended, as a status of the generator. *)
Definition outcome_status {A} (o : outcome A) : gen_status :=
  match o with
  | Returned _ => GFinished
  | Raised e => GRaised e
  | OutOfFuel => GOutOfFuel
  end.

(** The answers to the queries a generator issued, in order. *)
Definition fetches (src : source_service) (evs : list gen_event)
  : list (list page) :=
  (λ req, by_page (search src req)) <$> queries evs.

(** The last answer is a single empty page, and it is the first answer
    that has an empty page. *)
Definition ends_at_first_empty_page (answers : list (list page)) : Prop :=
  ∃ before, answers = before ++ [[[]]]
            ∧ Forall (λ r, r ≠ [] ∧ Forall (λ p : page, p ≠ []) r) before.

(** The generator of the range-filtered mode, in a given frame. *)
Definition with_filter (key_field_name : string) (f : gen_frame) : generator :=
  {| mode := WithFilter key_field_name; frame := f |}.

(** Strictly ascending key values. *)
Definition key_lt (key_le : relation string) (f : string) : relation document :=
  λ d1 d2, key_le (field_value f d1) (field_value f d2)
           ∧ field_value f d1 ≠ field_value f d2.

(** Closed decidable side conditions, by evaluation. *)
Ltac by_decide := apply (bool_decide_unpack _); by vm_compute.

(** * The configuration cell *)

Module Config.

Inductive credential :=
| AzureKeyCredential (key : string)
| DefaultAzureCredential.

Record configuration := {
  source_endpoint : string;
  source_credential : credential;
  source_index_name : string;
  target_endpoint : string;
  target_credential : credential;
  target_index_name : string
}.

(** [os.environ[name]], after [load_dotenv] filled the environment. *)
Definition environ (env : gmap string string) (name : string) : exn + string :=
  match env !! name with
  | Some v => inr v
  | None => inl (KeyError name)
  end.

(** [AzureKeyCredential(key) if len(key) > 0 else DefaultAzureCredential()] *)
Definition credential_of (key : string) : credential :=
  if bool_decide (0 < String.length key)
  then AzureKeyCredential key else DefaultAzureCredential.

(** The six assignments of the cell, in order. *)
Definition load_configuration (env : gmap string string)
  : exn + configuration :=
  match environ env "AZURE_SEARCH_SERVICE_ENDPOINT" with
  | inl e => inl e
  | inr source_endpoint =>
  match environ env "AZURE_SEARCH_ADMIN_KEY" with
  | inl e => inl e
  | inr source_key =>
  match environ env "AZURE_SEARCH_INDEX" with
  | inl e => inl e
  | inr source_index_name =>
  match environ env "AZURE_TARGET_SEARCH_SERVICE_ENDPOINT" with
  | inl e => inl e
  | inr endpoint =>
  match environ env "AZURE_TARGET_SEARCH_ADMIN_KEY" with
  | inl e => inl e
  | inr target_key =>
  match environ env "AZURE_TARGET_SEARCH_INDEX" with
  | inl e => inl e
  | inr target_index_name =>
      inr {| source_endpoint := source_endpoint;
             source_credential := credential_of source_key;
             source_index_name := source_index_name;
             target_endpoint :=
               if bool_decide (0 < String.length endpoint)
               then endpoint else source_endpoint;
             target_credential := credential_of target_key;
             target_index_name := target_index_name |}
  end end end end end end.

(** The variables the cell reads, in the order it reads them. *)
Definition variables : list string :=
  [ "AZURE_SEARCH_SERVICE_ENDPOINT"; "AZURE_SEARCH_ADMIN_KEY";
    "AZURE_SEARCH_INDEX"; "AZURE_TARGET_SEARCH_SERVICE_ENDPOINT";
    "AZURE_TARGET_SEARCH_ADMIN_KEY"; "AZURE_TARGET_SEARCH_INDEX" ].

(** An environment for a copy within one service, with key access. *)
Definition same_service_env : gmap string string :=
  list_to_map
    [ ("AZURE_SEARCH_SERVICE_ENDPOINT", "https://a.search.windows.net");
      ("AZURE_SEARCH_ADMIN_KEY", "secret");
      ("AZURE_SEARCH_INDEX", "source");
      ("AZURE_TARGET_SEARCH_SERVICE_ENDPOINT", EmptyString);
      ("AZURE_TARGET_SEARCH_ADMIN_KEY", EmptyString);
      ("AZURE_TARGET_SEARCH_INDEX", "target") ].

End Config.

(** * Reading a generator run *)

(** [last_item] once the pages of an answer have all been gone through:
    the last document of the last page, nothing if that page is empty. *)
Definition final_item (last_item : option document) (ps : list page)
  : option document :=
  match last ps with
  | Some p => last p
  | None => last_item
  end.

Definition nonempty_pages (ps : list page) : list page :=
  filter (λ p : page, p ≠ []) ps.

(** Every follow-up query asks for the keys after that of the last
    document of the page yielded last ([cursor]). *)
Fixpoint follows_cursor (key_field_name : string) (cursor : option document)
    (evs : list gen_event) : Prop :=
  match evs with
  | [] => True
  | GYield p :: evs' => follows_cursor key_field_name (last p) evs'
  | GQuery req :: evs' =>
      (∃ d v, cursor = Some d ∧ d !! key_field_name = Some v
              ∧ req = next_request key_field_name v)
      ∧ follows_cursor key_field_name cursor evs'
  end.

(** The target after the pages were uploaded one after the other. *)
Definition upload_pages {T} (tgt : target_service T) (t : T)
    (pages : list page) : T :=
  foldl (λ t p, (upload_documents tgt t p).2) t pages.

Definition is_create (e : event) : bool :=
  match e with EvCreateOrUpdateIndex _ => true | _ => false end.

(** The part of a run before paging starts. *)
Definition preamble (source_index_name target_index_name : string)
    (index : search_index) (key_field : search_field) : list event :=
  EvGetIndex source_index_name
  :: (if bool_decide (0 < length (hidden_fields (fields index)))
      then [EvPrint (non_retrievable_warning (hidden_fields (fields index)))]
      else [])
  ++ [ EvCreateOrUpdateIndex (rename target_index_name index);
       EvSearch total_count_request ]
  ++ (if can_use_filter key_field then [] else [EvPrint truncation_warning])
  ++ [ EvPrint "Backing up and restoring documents:" ].

(** The documents of a collection as the reference target stores them. *)
Definition stored (id_field : string) (docs : list document)
  : gmap string document :=
  list_to_map ((λ d, (field_value id_field d, d)) <$> docs).

(** Closes the case of a missing variable, the ones before it given. *)
Ltac missing_variable :=
  do 2 eexists; split_and!;
  [reflexivity | repeat constructor; eauto | eassumption | reflexivity].

(** * The scan of the index definition *)

Lemma scan_fields_from fs nr kf :
  foldl (λ '(non_retrievable_fields, key_field) field,
           (if is_true (hidden field)
            then non_retrievable_fields ++ [field] else non_retrievable_fields,
            if is_true (key field) then Some field else key_field))
        (nr, kf) fs
  = (nr ++ hidden_fields fs, from_option Some kf (last (key_fields fs))).
Proof.
  revert nr kf. induction fs as [|f fs IH]; intros nr kf; simpl.
  - by rewrite app_nil_r.
  - rewrite IH. unfold hidden_fields, key_fields.
    rewrite !(filter_cons _ f). f_equal.
    + destruct (is_true (hidden f)); simpl; [|done].
      by rewrite <- app_assoc.
    + destruct (is_true (key f)); simpl; [|done].
      rewrite last_cons. by destruct (last _).
Qed.

Lemma scan_fields_spec fs :
  scan_fields fs = (hidden_fields fs, last (key_fields fs)).
Proof.
  unfold scan_fields. rewrite scan_fields_from. simpl.
  by destruct (last _).
Qed.

Lemma no_key_field_filter fs :
  Forall (λ f, key f ≠ Some true) fs → key_fields fs = [].
Proof.
  unfold key_fields. induction 1 as [|f fs Hf _ IH]; [done|].
  rewrite filter_cons, IH. rewrite decide_False; [done|].
  destruct (key f) as [[]|]; simpl; [done|auto..].
Qed.

Section schema_check.
Context {T : Type}.
Context (src : source_service) (tgt : target_service T) (om : object_model).
Context (fuel : nat).
Context (source_endpoint source_key source_index_name : string).
Context (target_endpoint target_key target_index_name : string).
Context (t : T).

Let run := backup_and_restore_index src tgt om fuel
             source_endpoint source_key source_index_name
             target_endpoint target_key target_index_name t.

Lemma run_without_key_field :
  Forall (λ f, key f ≠ Some true) (fields (get_index src source_index_name)) →
  run = (Raised (UnboundLocalError "key_field"),
         emit (EvGetIndex source_index_name) (initial_state t)).
Proof.
  intros Hno. unfold run, backup_and_restore_index.
  rewrite scan_fields_spec, (no_key_field_filter _ Hno). done.
Qed.

Lemma run_with_key_field kf :
  last (key_fields (fields (get_index src source_index_name))) = Some kf →
  run = restore_with_key_field src tgt om fuel
          (create_clients source_endpoint source_key source_index_name).1
          (create_clients target_endpoint target_key target_index_name).1
          (get_index src source_index_name)
          (hidden_fields (fields (get_index src source_index_name)))
          kf source_index_name target_index_name
          (emit (EvGetIndex source_index_name) (initial_state t)).
Proof.
  intros Hkf. unfold run, backup_and_restore_index.
  rewrite scan_fields_spec, Hkf. done.
Qed.
End schema_check.

(** * Exceptions a run can end with *)

Lemma gen_step_raised src g e :
  gen_step src g = GenRaised e → ∃ k, e = KeyError k.
Proof.
  unfold gen_step, search_results_with_filter, search_results_without_filter.
  intros H. repeat case_match; simplify_eq; eauto.
Qed.

Section sdk_runs.
Context {T : Type}.
Context (src : source_service) (tgt : target_service T).

Lemma scan_result_sdk p result items (s : run_state T) e s' :
  scan_result sdk_objects p result items s = (Some e, s') →
  e = AttributeError "index_of".
Proof.
  revert s. induction items as [|item items IH]; intros s; simpl; [done|].
  destruct (succeeded item); [apply IH|]. by intros [= <- _].
Qed.

Lemma restore_pages_sdk_raised fuel g s e s' :
  restore_pages src tgt sdk_objects fuel g s = (Raised e, s') →
  e = AttributeError "index_of" ∨ ∃ k, e = KeyError k.
Proof.
  revert g s. induction fuel as [|fuel IH]; intros g s; simpl; [done|].
  destruct (gen_step src g) as [p f|req f|f| |e0] eqn:Hstep; try by eauto.
  - unfold restore_page.
    destruct (upload_documents tgt (target s) p) as [result t'].
    destruct (scan_result _ _ _ _ _) as [[e1|] s1] eqn:Hscan; [|by eauto].
    intros [= <- _]. left. eapply scan_result_sdk, Hscan.
  - intros [= <- _]. right. eapply gen_step_raised, Hstep.
Qed.
End sdk_runs.

(** * Schema validation *)

(** C4. When no field of the source index definition is marked as key, the
    run raises and stops before any mutation of the target: the target
    service is in its initial state, and neither [create_or_update_index]
    nor [upload_documents] was called. *)
Theorem C4_no_key_field_aborts_before_any_write {T}
    (src : source_service) (tgt : target_service T) (om : object_model)
    (fuel : nat) (se sk sn te tk tn : string) (t : T) :
  Forall (λ f, key f ≠ Some true) (fields (get_index src sn)) →
  let r := backup_and_restore_index src tgt om fuel se sk sn te tk tn t in
  (∃ e, r.1 = Raised e)
  ∧ target r.2 = t
  ∧ Forall (λ e, mutates_target e = false) (trace r.2)
  ∧ uploaded (trace r.2) = [].
Proof.
  intros Hno r. subst r.
  rewrite (run_without_key_field src tgt om fuel se sk sn te tk tn t Hno).
  simpl. split_and!; eauto.
Qed.

Lemma C4_witness :
  let r := backup_and_restore_index (reference_source String.le keyless_index sample_docs 2)
             (reference_target "id" rejects_k5) sdk_objects 20
             "se" "sk" "source" "te" "tk" "target" no_store in
  (∃ e, r.1 = Raised e)
  ∧ target r.2 = no_store
  ∧ Forall (λ e, mutates_target e = false) (trace r.2)
  ∧ uploaded (trace r.2) = [].
Proof.
  apply (C4_no_key_field_aborts_before_any_write
           (reference_source String.le keyless_index sample_docs 2)).
  simpl. by repeat constructor.
Defined.

(** C9. Without a field marked as key the local [key_field] is never
    bound, so the guard itself fails with an unbound-variable error, before
    any call that changes the target; and no index definition makes the run
    end with the exception of the guarded branch. *)
Theorem C9_guard_reads_unbound_key_field {T}
    (src : source_service) (tgt : target_service T) (om : object_model)
    (fuel : nat) (se sk sn te tk tn : string) (t : T) :
  (Forall (λ f, key f ≠ Some true) (fields (get_index src sn)) →
   backup_and_restore_index src tgt om fuel se sk sn te tk tn t
   = (Raised (UnboundLocalError "key_field"),
      {| target := t; trace := [EvGetIndex sn]; progress_n := 0;
         failed_documents := 0; failed_keys := [] |}))
  ∧ (∀ f, negb (object_truthy f) = false)
  ∧ (backup_and_restore_index src tgt om fuel se sk sn te tk tn t
     = (Raised (UnboundLocalError "key_field"),
        emit (EvGetIndex sn) (initial_state t))
     ∨ ∃ kf, backup_and_restore_index src tgt om fuel se sk sn te tk tn t
             = restore_with_key_field src tgt om fuel
                 (create_clients se sk sn).1 (create_clients te tk tn).1
                 (get_index src sn) (hidden_fields (fields (get_index src sn)))
                 kf sn tn (emit (EvGetIndex sn) (initial_state t)))
  ∧ (backup_and_restore_index src tgt sdk_objects fuel se sk sn te tk tn t).1
    ≠ Raised (PyException "Key Field Not Found").
Proof.
  split_and!.
  - intros Hno.
    by rewrite (run_without_key_field src tgt om fuel se sk sn te tk tn t Hno).
  - done.
  - unfold backup_and_restore_index. rewrite scan_fields_spec.
    destruct (last _) as [kf|]; [right; by exists kf|by left].
  - unfold backup_and_restore_index. rewrite scan_fields_spec.
    destruct (last _) as [kf|]; [|done]. simpl.
    unfold restore_with_key_field.
    destruct (restore_pages _ _ _ _ _ _) as [[g|e|] s] eqn:Hrun; simpl; [done| |done].
    apply restore_pages_sdk_raised in Hrun as [->|[k ->]]; done.
Qed.

Lemma C9_witness :
  backup_and_restore_index (reference_source String.le keyless_index sample_docs 2)
    (reference_target "id" rejects_k5) sdk_objects 20
    "se" "sk" "source" "te" "tk" "target" no_store
  = (Raised (UnboundLocalError "key_field"),
     {| target := no_store; trace := [EvGetIndex "source"]; progress_n := 0;
        failed_documents := 0; failed_keys := [] |}).
Proof.
  apply (C9_guard_reads_unbound_key_field
           (reference_source String.le keyless_index sample_docs 2)).
  simpl. by repeat constructor.
Defined.

(** * Count verification *)

(** C6 (as amended). [verify_counts] prints the two counts and then
    "Document counts match." exactly when they are equal, "Document counts
    do not match." exactly when they differ; the value it returns is [None]
    in both cases. *)
Theorem C6_verify_counts_prints_and_returns_none {T}
    (src : source_service) (tgt : target_service T) (t : T) :
  let r := verify_counts src tgt t in
  r.1 = None
  ∧ ("Document counts match." ∈ r.2
     ↔ get_document_count src = target_document_count tgt t)
  ∧ ("Document counts do not match." ∈ r.2
     ↔ get_document_count src ≠ target_document_count tgt t).
Proof.
  simpl. split; [done|].
  rewrite !elem_of_cons, !elem_of_nil.
  case_bool_decide as Heq; split; split;
    try (intros [H|[H|[H|[]]]]; by simplify_eq/=); intros; try done; auto.
Qed.

(** C6, as stated, fails: with 120 source documents and 115 target
    documents the returned value is not the boolean false. *)
Lemma C6_counterexample :
  (verify_counts (counting_source 120) counting_target 115).1 ≠ Some false.
Proof. done. Qed.

(** * The replication loop *)

Lemma uploaded_app tr1 tr2 : uploaded (tr1 ++ tr2) = uploaded tr1 ++ uploaded tr2.
Proof. apply omap_app. Qed.

Lemma searches_app tr1 tr2 : searches (tr1 ++ tr2) = searches tr1 ++ searches tr2.
Proof. apply omap_app. Qed.

Lemma printed_app tr1 tr2 : printed (tr1 ++ tr2) = printed tr1 ++ printed tr2.
Proof. apply omap_app. Qed.

Lemma page_events_app tr1 tr2 :
  page_events (tr1 ++ tr2) = page_events tr1 ++ page_events tr2.
Proof. apply filter_app. Qed.

Lemma uploaded_prints lines : uploaded (EvPrint <$> lines) = [].
Proof. by induction lines. Qed.

Lemma searches_prints lines : searches (EvPrint <$> lines) = [].
Proof. by induction lines. Qed.


Lemma page_events_prints lines : page_events (EvPrint <$> lines) = [].
Proof. by induction lines. Qed.

Section loop.
Context {T : Type}.
Context (src : source_service) (tgt : target_service T) (om : object_model).

(** The failure branch only prints. *)
Lemma scan_result_effect p result items (s : run_state T) :
  ∃ lines,
    trace (scan_result om p result items s).2 = trace s ++ (EvPrint <$> lines)
    ∧ progress_n (scan_result om p result items s).2 = progress_n s
    ∧ target (scan_result om p result items s).2 = target s.
Proof.
  revert s. induction items as [|item items IH]; intros s; simpl.
  - exists []. by rewrite app_nil_r.
  - destruct (succeeded item); [apply IH|].
    destruct (index_of om result item) as [e|i];
      [exists []; by rewrite app_nil_r|].
    destruct (p !! i) as [d|]; [|exists []; by rewrite app_nil_r].
    destruct (attr_id om d) as [e|k]; [exists []; by rewrite app_nil_r|].
    destruct (attr_error_message om item) as [e|m];
      [exists []; by rewrite app_nil_r|].
    edestruct IH as (lines & -> & -> & ->).
    eexists (_ :: lines). simpl. by rewrite <- app_assoc.
Qed.

Lemma restore_page_effect p (s : run_state T) :
  ∃ lines,
    trace (restore_page tgt om p s).2
    = trace s ++ EvUploadDocuments p
        :: EvProgressUpdate (length (upload_documents tgt (target s) p).1)
        :: (EvPrint <$> lines)
    ∧ progress_n (restore_page tgt om p s).2
      = progress_n s + length (upload_documents tgt (target s) p).1.
Proof.
  unfold restore_page.
  destruct (upload_documents tgt (target s) p) as [result t'] eqn:Hup.
  edestruct scan_result_effect as (lines & -> & -> & _).
  exists lines. simpl. split; [|done].
  by rewrite <- !app_assoc.
Qed.

(** A property of the state kept by every turn of the loop holds when the
    loop is left, however it is left. *)
Lemma restore_pages_invariant (I : generator → run_state T → Prop) :
  (∀ g s req f, gen_step src g = Queried req f →
     I g s → I (resume g f) (emit (EvSearch req) s)) →
  (∀ g s f, gen_step src g = Skipped f → I g s → I (resume g f) s) →
  (∀ g s p f, gen_step src g = Yielded p f →
     I g s → I (resume g f) (restore_page tgt om p s).2) →
  ∀ fuel g s, I g s → ∃ g', I g' (restore_pages src tgt om fuel g s).2.
Proof.
  intros Hq Hs Hy. induction fuel as [|fuel IH]; intros g s HI; simpl.
  - eauto.
  - destruct (gen_step src g) as [p f|req f|f| |e] eqn:Hstep; simpl; eauto.
    specialize (Hy _ _ _ _ Hstep HI).
    destruct (restore_page tgt om p s) as [[e|] s']; simpl in *; eauto.
Qed.

Lemma restore_pages_returned fuel g s g' s' :
  restore_pages src tgt om fuel g s = (Returned g', s') →
  mode g' = mode g ∧ frame g' = Exhausted.
Proof.
  revert g s. induction fuel as [|fuel IH]; intros g s; simpl; [done|].
  destruct (gen_step src g) as [p f|req f|f| |e] eqn:Hstep; try done.
  - destruct (restore_page tgt om p s) as [[e|] s1]; [done|].
    intros H. by apply IH in H.
  - intros H. by apply IH in H.
  - intros H. by apply IH in H.
  - by intros [= <- _].
Qed.
End loop.

(** * More than one key field *)

(** C10. With more than one field marked as key the run does not fail on
    the schema: [key_field] ends up bound to the last such field in schema
    order, and the run goes on with that field (its capability flags decide
    the paging mode, its name is the one paged on). *)
Theorem C10_last_key_field_wins {T}
    (src : source_service) (tgt : target_service T) (om : object_model)
    (fuel : nat) (se sk sn te tk tn : string) (t : T) :
  1 < length (key_fields (fields (get_index src sn))) →
  ∃ kf,
    last (key_fields (fields (get_index src sn))) = Some kf
    ∧ (scan_fields (fields (get_index src sn))).2 = Some kf
    ∧ backup_and_restore_index src tgt om fuel se sk sn te tk tn t
      = restore_with_key_field src tgt om fuel
          (create_clients se sk sn).1 (create_clients te tk tn).1
          (get_index src sn) (hidden_fields (fields (get_index src sn)))
          kf sn tn (emit (EvGetIndex sn) (initial_state t))
    ∧ ∀ v, (backup_and_restore_index src tgt om fuel se sk sn te tk tn t).1
           = Returned v →
           mode v.2 = mode (all_documents kf).
Proof.
  intros Hlen.
  destruct (last (key_fields (fields (get_index src sn)))) as [kf|] eqn:Hlast.
  - exists kf. split_and!; [done| | |].
    + by rewrite scan_fields_spec.
    + by apply run_with_key_field.
    + intros v. rewrite (run_with_key_field _ _ _ _ _ _ _ _ _ _ _ kf Hlast).
      unfold restore_with_key_field.
      destruct (restore_pages _ _ _ _ _ _) as [[g|e|] s] eqn:Hrun;
        cbn [fst snd]; [|done..].
      intros [= <-]. by apply restore_pages_returned in Hrun as [Hmode _].
  - apply last_None in Hlast. rewrite Hlast in Hlen. simpl in Hlen. lia.
Qed.

Lemma C10_witness :
  ∃ kf,
    last (key_fields (fields two_key_index)) = Some kf
    ∧ (scan_fields (fields two_key_index)).2 = Some kf
    ∧ backup_and_restore_index (reference_source String.le two_key_index sample_docs 2)
        (reference_target "id" rejects_k5) sdk_objects 20
        "se" "sk" "source" "te" "tk" "target" no_store
      = restore_with_key_field (reference_source String.le two_key_index sample_docs 2)
          (reference_target "id" rejects_k5) sdk_objects 20
          (create_clients "se" "sk" "source").1 (create_clients "te" "tk" "target").1
          two_key_index (hidden_fields (fields two_key_index))
          kf "source" "target" (emit (EvGetIndex "source") (initial_state no_store))
    ∧ ∀ v, (backup_and_restore_index
              (reference_source String.le two_key_index sample_docs 2)
              (reference_target "id" rejects_k5) sdk_objects 20
              "se" "sk" "source" "te" "tk" "target" no_store).1
           = Returned v →
           mode v.2 = mode (all_documents kf).
Proof.
  apply (C10_last_key_field_wins
           (reference_source String.le two_key_index sample_docs 2)).
  simpl. lia.
Defined.

(** * Progress *)

Lemma bar_history_page_events n tr :
  bar_history n (page_events tr) = bar_history n tr.
Proof.
  revert n. induction tr as [|e tr IH]; intros n; [done|].
  unfold page_events in *. rewrite filter_cons.
  destruct e; simpl; rewrite ?IH; done.
Qed.

Lemma bar_history_page_records n pages :
  bar_history n (pages ≫= page_record) = running_total n (length <$> pages).
Proof.
  revert n. induction pages as [|p pages IH]; intros n; simpl; [done|].
  by rewrite IH.
Qed.

Lemma running_total_sorted n l :
  Forall (λ m, n ≤ m) (running_total n l) ∧ Sorted le (running_total n l).
Proof.
  revert n. induction l as [|k l IH]; intros n; simpl; [by split|].
  destruct (IH (n + k)) as [Hall Hsorted]. split.
  - constructor; [lia|]. eapply Forall_impl; [done|]. simpl. lia.
  - constructor; [done|]. destruct Hall; constructor. lia.
Qed.

Section progress.
Context {T : Type}.
Context (src : source_service) (tgt : target_service T) (om : object_model).
Hypothesis one_result_per_document :
  ∀ t p, length (upload_documents tgt t p).1 = length p.

Lemma progress_inv_emit e (s : run_state T) :
  is_page_event e = false → progress_inv s → progress_inv (emit e s).
Proof.
  intros He [H1 H2]. unfold progress_inv. simpl.
  rewrite page_events_app, uploaded_app, H1, bind_app, sum_list_with_app.
  destruct e; simplify_eq/=; rewrite ?app_nil_r; split; (done || lia).
Qed.

Lemma progress_inv_restore_page p s :
  progress_inv s → progress_inv (restore_page tgt om p s).2.
Proof.
  intros [H1 H2]. unfold progress_inv.
  destruct (restore_page_effect tgt om p s) as (lines & -> & ->).
  rewrite one_result_per_document.
  rewrite page_events_app, uploaded_app, H1, bind_app, sum_list_with_app.
  change (EvUploadDocuments p :: EvProgressUpdate (length p) :: (EvPrint <$> lines))
    with (page_record p ++ (EvPrint <$> lines)).
  rewrite page_events_app, uploaded_app, page_events_prints, uploaded_prints.
  simpl. rewrite H2. split; [done|lia].
Qed.

Lemma progress_inv_restore_pages fuel g s :
  progress_inv s → progress_inv (restore_pages src tgt om fuel g s).2.
Proof.
  intros HI.
  destruct (restore_pages_invariant src tgt om (λ _, @progress_inv T)) with fuel g s
    as [_ H]; eauto using progress_inv_emit, progress_inv_restore_page.
Qed.

Lemma progress_inv_summary sn tn (s : run_state T) :
  progress_inv s → progress_inv (summary sn tn s).
Proof.
  intros HI. unfold summary, print.
  case_bool_decide; repeat apply progress_inv_emit; done.
Qed.

Lemma progress_inv_set_target t (s : run_state T) :
  progress_inv s → progress_inv (set_target t s).
Proof. done. Qed.

Lemma progress_inv_run fuel se sk sn te tk tn t :
  progress_inv
    (backup_and_restore_index src tgt om fuel se sk sn te tk tn t).2.
Proof.
  assert (progress_inv (emit (EvGetIndex sn) (initial_state t))) as H0.
  { by apply progress_inv_emit. }
  unfold backup_and_restore_index.
  destruct (scan_fields _) as [nr [kf|]]; [|done]. simpl.
  unfold restore_with_key_field.
  match goal with
  | |- context [restore_pages src tgt om fuel ?g ?s0] =>
      assert (progress_inv s0) as Hs0;
      [|pose proof (progress_inv_restore_pages fuel g s0 Hs0) as Hloop;
        destruct (restore_pages src tgt om fuel g s0) as [[g'|e|] s1]]
  end; simpl in *; [|by apply progress_inv_summary|done..].
  unfold print.
  repeat first
    [ apply progress_inv_emit; [done|]
    | apply progress_inv_set_target
    | match goal with
      | |- progress_inv (if ?b then _ else _) => destruct b
      end ];
    done.
Qed.
End progress.

Lemma upload_all_length id_field rejects p t :
  length (upload_all id_field rejects p t).1 = length p.
Proof.
  revert t. induction p as [|d p IH]; intros t; simpl; [done|].
  destruct (upload_one id_field rejects d t) as [r t1].
  specialize (IH t1). destruct (upload_all id_field rejects p t1) as [rs t2].
  simpl in *. by rewrite IH.
Qed.

(** C8. The counter of the progress bar never decreases, and each uploaded
    page advances it by the number of documents of that page, whatever the
    per-document results say: directly after every upload comes the update
    by the size of the page, the successive counter values are the running
    totals of the page sizes, and the counter is the number of documents
    uploaded so far. *)
Theorem C8_progress_counts_submitted_documents {T}
    (src : source_service) (tgt : target_service T) (om : object_model)
    (fuel : nat) (se sk sn te tk tn : string) (t : T) :
  (∀ t p, length (upload_documents tgt t p).1 = length p) →
  let s := (backup_and_restore_index src tgt om fuel se sk sn te tk tn t).2 in
  page_events (trace s) = uploaded (trace s) ≫= page_record
  ∧ bar_history 0 (trace s) = running_total 0 (length <$> uploaded (trace s))
  ∧ Sorted le (bar_history 0 (trace s))
  ∧ progress_n s = sum_list_with length (uploaded (trace s)).
Proof.
  intros Hlen s.
  destruct (progress_inv_run src tgt om Hlen fuel se sk sn te tk tn t)
    as [Hev Hn].
  fold s in Hev, Hn.
  assert (bar_history 0 (trace s)
          = running_total 0 (length <$> uploaded (trace s))) as Hbar.
  { by rewrite <- bar_history_page_events, Hev, bar_history_page_records. }
  split_and!; [done..| |done].
  rewrite Hbar. apply running_total_sorted.
Qed.

Lemma C8_witness :
  let s := (backup_and_restore_index
              (reference_source String.le sample_index sample_docs 2)
              (reference_target "id" rejects_k5) resolving_objects 20
              "se" "sk" "source" "te" "tk" "target" no_store).2 in
  page_events (trace s) = uploaded (trace s) ≫= page_record
  ∧ bar_history 0 (trace s) = running_total 0 (length <$> uploaded (trace s))
  ∧ Sorted le (bar_history 0 (trace s))
  ∧ progress_n s = sum_list_with length (uploaded (trace s)).
Proof.
  apply (C8_progress_counts_submitted_documents
           (reference_source String.le sample_index sample_docs 2)
           (reference_target "id" rejects_k5)).
  intros t p. simpl. apply upload_all_length.
Defined.

(** * What a completed run returns *)

Lemma summary_trace {T} sn tn (s : run_state T) :
  trace (summary sn tn s)
  = trace s ++ (EvPrint <$> summary_lines sn tn (failed_documents s) (failed_keys s)).
Proof.
  unfold summary, summary_lines, print. case_bool_decide; simpl.
  - by rewrite <- !app_assoc.
  - by rewrite <- !app_assoc.
Qed.

Lemma summary_locals {T} sn tn (s : run_state T) :
  failed_documents (summary sn tn s) = failed_documents s
  ∧ failed_keys (summary sn tn s) = failed_keys s
  ∧ progress_n (summary sn tn s) = progress_n s.
Proof. unfold summary, print. by case_bool_decide. Qed.

(** C7 (as amended). A run that completes returns the two search clients
    and the page generator, which is exhausted; the number of failed
    documents and their keys are printed, not returned: the trace ends with
    the failure count and the failed keys when there were failures, with
    "All documents uploaded successfully." otherwise, followed by the
    closing line. *)
Theorem C7_returns_clients_and_exhausted_generator {T}
    (src : source_service) (tgt : target_service T) (om : object_model)
    (fuel : nat) (se sk sn te tk tn : string) (t : T) v :
  let r := backup_and_restore_index src tgt om fuel se sk sn te tk tn t in
  r.1 = Returned v →
  v.1.1 = (create_clients se sk sn).1
  ∧ v.1.2 = (create_clients te tk tn).1
  ∧ frame v.2 = Exhausted
  ∧ ∃ tr, trace r.2
          = tr ++ (EvPrint <$> summary_lines sn tn (failed_documents r.2)
                                 (failed_keys r.2)).
Proof.
  simpl. unfold backup_and_restore_index.
  destruct (scan_fields _) as [nr [kf|]]; [|done]. simpl.
  unfold restore_with_key_field.
  destruct (restore_pages _ _ _ _ _ _) as [[g|e|] s] eqn:Hrun;
    cbn [fst snd]; [|done..].
  intros [= <-]. cbn [fst snd].
  apply restore_pages_returned in Hrun as [_ Hframe].
  split_and!; [done..|].
  destruct (summary_locals sn tn s) as (-> & -> & _).
  eexists. apply summary_trace.
Qed.

Lemma C7_witness :
  let r := backup_and_restore_index
             (reference_source String.le sample_index sample_docs 2)
             (reference_target "id" rejects_k5) resolving_objects 20
             "se" "sk" "source" "te" "tk" "target" no_store in
  let v := ((create_clients "se" "sk" "source").1,
            (create_clients "te" "tk" "target").1,
            {| mode := WithFilter "id"; frame := Exhausted |}) in
  r.1 = Returned v
  ∧ v.1.1 = (create_clients "se" "sk" "source").1
  ∧ v.1.2 = (create_clients "te" "tk" "target").1
  ∧ frame v.2 = Exhausted
  ∧ ∃ tr, trace r.2
          = tr ++ (EvPrint <$> summary_lines "source" "target"
                                 (failed_documents r.2) (failed_keys r.2)).
Proof.
  intros r v.
  assert (r.1 = Returned v) as Hret by (by vm_compute).
  split; [done|].
  exact (C7_returns_clients_and_exhausted_generator
           (reference_source String.le sample_index sample_docs 2)
           (reference_target "id" rejects_k5) resolving_objects 20
           "se" "sk" "source" "te" "tk" "target" no_store v Hret).
Defined.

(** C7, as stated, fails: two completed runs, over sources of three and
    of two documents, return the same value, so the value returned does not
    hold the number of documents processed. *)
Lemma C7_counterexample :
  let r3 := backup_and_restore_index
              (reference_source String.le sample_index sample_docs 2)
              (reference_target "id" accepts_all) sdk_objects 20
              "se" "sk" "source" "te" "tk" "target" no_store in
  let r2 := backup_and_restore_index
              (reference_source String.le sample_index [doc "k4"; doc "k6"] 2)
              (reference_target "id" accepts_all) sdk_objects 20
              "se" "sk" "source" "te" "tk" "target" no_store in
  (∃ v, r3.1 = Returned v ∧ r2.1 = Returned v)
  ∧ progress_n r3.2 = 3 ∧ progress_n r2.2 = 2
  ∧ length (concat (uploaded (trace r3.2))) = 3
  ∧ length (concat (uploaded (trace r2.2))) = 2.
Proof.
  intros r3 r2. split; [|by vm_compute].
  eexists. split; by vm_compute.
Qed.

(** * Unfiltered paging *)

Lemma without_filter_pages src ps li :
  gen_run src (S (length ps))
    {| mode := WithoutFilter; frame := InResponse li ps |}
  = (GYield <$> ps, GFinished).
Proof.
  induction ps as [|p ps IH]; [done|].
  change (gen_run src (S (length (p :: ps))) ?g)
    with (let '(evs, st) :=
            gen_run src (S (length ps))
              {| mode := WithoutFilter; frame := InResponse li ps |} in
          (GYield p :: evs, st)).
  by rewrite IH.
Qed.

Lemma without_filter_run src :
  gen_run src (2 + length (by_page (search src unfiltered_request)))
    {| mode := WithoutFilter; frame := NotStarted |}
  = (GQuery unfiltered_request
       :: (GYield <$> by_page (search src unfiltered_request)), GFinished).
Proof.
  change (gen_run src (2 + ?n) ?g)
    with (let '(evs, st) :=
            gen_run src (S n)
              {| mode := WithoutFilter;
                 frame := InResponse None (by_page (search src unfiltered_request)) |} in
          (GQuery unfiltered_request :: evs, st)).
  by rewrite without_filter_pages.
Qed.

Section unfiltered.
Context {T : Type}.
Context (src : source_service) (tgt : target_service T) (om : object_model).

Lemma unfiltered_inv_restore_pages fuel g (s : run_state T) :
  unfiltered_inv g s →
  ∃ g', unfiltered_inv g' (restore_pages src tgt om fuel g s).2.
Proof.
  apply restore_pages_invariant; clear g s.
  - intros g s req f Hstep (Hmode & Hs & Hw). split_and!; [done| |].
    + simpl. rewrite searches_app, Forall_app. split; [done|].
      unfold gen_step in Hstep. rewrite Hmode in Hstep.
      unfold search_results_without_filter in Hstep.
      repeat case_match; simplify_eq. by repeat constructor.
    + simpl. set_solver.
  - intros g s f _ (Hmode & Hs & Hw). done.
  - intros g s p f _ (Hmode & Hs & Hw).
    destruct (restore_page_effect tgt om p s) as (lines & Htr & _).
    split_and!; [done| |]; rewrite Htr.
    + rewrite searches_app. simpl. by rewrite searches_prints, app_nil_r.
    + set_solver.
Qed.
End unfiltered.

(** C5 (as amended). When the key field is not both sortable and
    filterable, the run prints the truncation warning and pages without
    filter: the generator issues exactly one query, the unfiltered one, and
    yields every page of its answer in order (one page when the answer has
    one); no query of the run carries a filter. *)
Theorem C5_unfiltered_mode_single_query {T}
    (src : source_service) (tgt : target_service T) (om : object_model)
    (fuel : nat) (se sk sn te tk tn : string) (t : T) (kf : search_field) :
  last (key_fields (fields (get_index src sn))) = Some kf →
  can_use_filter kf = false →
  let r := backup_and_restore_index src tgt om fuel se sk sn te tk tn t in
  let pages := by_page (search src unfiltered_request) in
  gen_run src (2 + length pages) (all_documents kf)
  = (GQuery unfiltered_request :: (GYield <$> pages), GFinished)
  ∧ EvPrint truncation_warning ∈ trace r.2
  ∧ Forall (λ req, filter_expr req = None) (searches (trace r.2)).
Proof.
  intros Hkf Hcan r pages. split.
  { unfold all_documents. rewrite Hcan. apply without_filter_run. }
  subst r. rewrite (run_with_key_field _ _ _ _ _ _ _ _ _ _ _ kf Hkf).
  unfold restore_with_key_field, all_documents. rewrite Hcan. simpl negb.
  match goal with
  | |- context [restore_pages src tgt om fuel ?g ?s0] =>
      destruct (unfiltered_inv_restore_pages src tgt om fuel g s0)
        as (g' & _ & Hs & Hw);
      [|destruct (restore_pages src tgt om fuel g s0) as [[g1|e|] s1]]
  end; cbn [fst snd] in *.
  - split_and!; [done| |].
    + case_bool_decide; simpl; by repeat constructor.
    + simpl. set_solver.
  - split.
    + rewrite summary_trace. set_solver.
    + rewrite summary_trace, searches_app, searches_prints, app_nil_r. done.
  - done.
  - done.
Qed.

Lemma C5_witness :
  let src := reference_source String.le unsortable_index sample_docs 3 in
  let r := backup_and_restore_index src (reference_target "id" accepts_all)
             sdk_objects 20 "se" "sk" "source" "te" "tk" "target" no_store in
  let pages := by_page (search src unfiltered_request) in
  gen_run src (2 + length pages) (all_documents unsortable_id_field)
  = (GQuery unfiltered_request :: (GYield <$> pages), GFinished)
  ∧ EvPrint truncation_warning ∈ trace r.2
  ∧ Forall (λ req, filter_expr req = None) (searches (trace r.2)).
Proof.
  apply (C5_unfiltered_mode_single_query
           (reference_source String.le unsortable_index sample_docs 3));
    reflexivity.
Defined.

(** C5, as stated, fails: over three documents served two to a page, the
    unfiltered generator yields two pages, not one. *)
Lemma C5_counterexample :
  let src := reference_source String.le unsortable_index sample_docs 2 in
  can_use_filter unsortable_id_field = false
  ∧ last (key_fields (fields (get_index src "source"))) = Some unsortable_id_field
  ∧ (gen_run src 20 (all_documents unsortable_id_field)).2 = GFinished
  ∧ yielded (gen_run src 20 (all_documents unsortable_id_field)).1
    = [[doc "k6"; doc "k4"]; [doc "k5"]].
Proof. by vm_compute. Qed.

(** * Failed documents *)


Section failures.
Context {T : Type}.
Context (src : source_service) (tgt : target_service T).
Context (idx : list indexing_result → indexing_result → nat).
Context (idf : document → string) (msgf : indexing_result → string).
Hypothesis one_result_per_document :
  ∀ t p, length (upload_documents tgt t p).1 = length p.
Hypothesis index_in_range :
  ∀ result item, item ∈ result → idx result item < length result.

Let om := resolved idx idf msgf.


End failures.




(** Even on objects where the lookups resolve, the failure list holds the
    key alone; the message is only printed. *)
Example failure_list_holds_keys_only :
  let src := reference_source String.le sample_index sample_docs 2 in
  let r := backup_and_restore_index src (reference_target "id" rejects_k5)
             resolving_objects 20 "se" "sk" "source" "te" "tk" "target" no_store in
  failed_keys r.2 = ["k5"]
  ∧ "Document upload error: conflict" ∈ printed (trace r.2)
  ∧ uploaded (trace r.2) = [[doc "k4"; doc "k5"]; [doc "k6"]].
Proof. vm_compute. split_and!; [done| |done]. set_solver. Qed.

(** * Paging of the reference service *)

Lemma chunks_spec {A} (cap fuel : nat) (l : list A) :
  0 < cap → length l ≤ fuel →
  concat (chunks fuel cap l) = l
  ∧ Forall (λ p, p ≠ [] ∧ length p ≤ cap) (chunks fuel cap l).
Proof.
  intros Hcap. revert l. induction fuel as [|fuel IH]; intros l Hlen.
  - destruct l; simpl in *; [done|lia].
  - destruct l as [|x l]; [done|].
    change (chunks (S fuel) cap (x :: l))
      with (take cap (x :: l) :: chunks fuel cap (drop cap (x :: l))).
    destruct (IH (drop cap (x :: l))) as [Hcat Hall].
    { rewrite length_drop. simpl in *. lia. }
    split.
    + simpl concat. rewrite Hcat. apply take_drop.
    + constructor; [|done]. split.
      * destruct cap; [lia|done].
      * rewrite length_take. lia.
Qed.

Lemma paged_nil {A} (cap : nat) : paged cap (@nil A) = [[]].
Proof. done. Qed.

Lemma paged_spec {A} (cap : nat) (hits : list A) :
  0 < cap → hits ≠ [] →
  concat (paged cap hits) = hits
  ∧ paged cap hits ≠ []
  ∧ Forall (λ p, p ≠ [] ∧ length p ≤ cap) (paged cap hits).
Proof.
  intros Hcap Hne. destruct hits as [|x hits]; [done|].
  destruct (chunks_spec cap (length (x :: hits)) (x :: hits)) as [Hcat Hall];
    [done..|].
  unfold paged. split_and!; [done| |done].
  intros Hnil. rewrite Hnil in Hcat. done.
Qed.

Lemma filter_none {A} (P : A → Prop) `{!∀ x, Decision (P x)} (l : list A) :
  Forall (λ x, ¬ P x) l → filter P l = [].
Proof.
  induction 1 as [|x l Hx _ IH]; [done|].
  by rewrite filter_cons, decide_False, IH.
Qed.

Lemma filter_all {A} (P : A → Prop) `{!∀ x, Decision (P x)} (l : list A) :
  Forall P l → filter P l = l.
Proof.
  induction 1 as [|x l Hx _ IH]; [done|].
  by rewrite filter_cons, decide_True, IH.
Qed.

Lemma yielded_app evs1 evs2 : yielded (evs1 ++ evs2) = yielded evs1 ++ yielded evs2.
Proof. apply omap_app. Qed.

Lemma queries_app evs1 evs2 : queries (evs1 ++ evs2) = queries evs1 ++ queries evs2.
Proof. apply omap_app. Qed.

Lemma yielded_pages ps : yielded (GYield <$> ps) = ps.
Proof. induction ps; simpl; [done|]. by f_equal. Qed.

Lemma queries_pages ps : queries (GYield <$> ps) = [].
Proof. by induction ps. Qed.

(** The generator hands on the non-empty pages of an answer one by one,
    and remembers the last document of the last of them. *)
Lemma with_filter_pages src kf ps li fuel :
  Forall (λ p : page, p ≠ []) ps →
  gen_run src (length ps + fuel) (with_filter kf (InResponse li ps))
  = ((GYield <$> ps)
       ++ (gen_run src fuel
             (with_filter kf
                (InResponse (from_option Some li (last (concat ps))) []))).1,
     (gen_run src fuel
        (with_filter kf
           (InResponse (from_option Some li (last (concat ps))) []))).2).
Proof.
  intros Hne. revert li. induction Hne as [|p ps Hp _ IH]; intros li.
  - simpl. by destruct (gen_run _ _ _).
  - change (gen_run src (length (p :: ps) + fuel) ?g)
      with (match gen_step src (with_filter kf (InResponse li (p :: ps))) with
            | Yielded p f =>
                let '(evs, st) := gen_run src (length ps + fuel) (with_filter kf f) in
                (GYield p :: evs, st)
            | Queried req f =>
                let '(evs, st) := gen_run src (length ps + fuel) (with_filter kf f) in
                (GQuery req :: evs, st)
            | Skipped f => gen_run src (length ps + fuel) (with_filter kf f)
            | Finished => ([], GFinished)
            | GenRaised e => ([], GRaised e)
            end).
    unfold gen_step. simpl.
    rewrite bool_decide_eq_true_2 by (destruct p; [done|simpl; lia]).
    rewrite IH. simpl. f_equal.
    all: rewrite last_app; destruct (last (concat ps)) eqn:Hl; simpl; try done.
    all: destruct p as [|x p]; [done|].
    all: by destruct (last (x :: p)) eqn:Hlp; [|apply last_None in Hlp].
Qed.

(** * Range-filtered paging over a collection *)

Lemma top_limit_pos : 0 < N.to_nat top_limit.
Proof. unfold top_limit. lia. Qed.

Lemma ends_at_first_empty_page_last : ends_at_first_empty_page [[[]]].
Proof. exists []. by split. Qed.

Lemma ends_at_first_empty_page_cons r answers :
  r ≠ [] → Forall (λ p : page, p ≠ []) r →
  ends_at_first_empty_page answers → ends_at_first_empty_page (r :: answers).
Proof.
  intros Hr Hall (before & -> & Hbefore). exists (r :: before).
  split; [done|]. by constructor.
Qed.

Lemma dict_with_field_truthy (d : document) f v : d !! f = Some v → dict_truthy d = true.
Proof.
  intros Hv. apply bool_decide_eq_true_2. intros ->.
  by rewrite lookup_empty in Hv.
Qed.

(** At the end of an answer whose last document has the key field, the
    generator asks for the documents after that key. *)
Lemma cursor_step src kf (a : document) v fuel :
  a !! kf = Some v →
  gen_run src (S fuel) (with_filter kf (InResponse (Some a) []))
  = (GQuery (next_request kf v)
       :: (gen_run src fuel
             (with_filter kf
                (InResponse (Some a)
                   (by_page (search src (next_request kf v)))))).1,
     (gen_run src fuel
        (with_filter kf
           (InResponse (Some a)
              (by_page (search src (next_request kf v)))))).2).
Proof.
  intros Hv. simpl. unfold gen_step. simpl.
  rewrite (dict_with_field_truthy a kf v Hv), Hv.
  by destruct (gen_run _ _ _).
Qed.

#[local] Opaque top_limit.

Section pagination.
Context (key_le : relation string).
Context `{!RelDecision key_le, !PartialOrder key_le, !Total key_le}.
Context (index : search_index) (docs : list document) (cap : nat).
Context (kf : string).
Hypothesis cap_pos : 0 < cap.
Hypothesis keys_unique : NoDup (field_value kf <$> docs).
Hypothesis keys_present : Forall (λ d, is_Some (d !! kf)) docs.

Let src := reference_source key_le index docs cap.
Let sorted := merge_sort (doc_le key_le kf) docs.

#[local] Instance doc_le_trans : Transitive (doc_le key_le kf).
Proof. intros x y z. unfold doc_le. apply transitivity. Qed.

#[local] Instance doc_le_total : Total (doc_le key_le kf).
Proof. intros x y. unfold doc_le. apply total, _. Qed.

Lemma sorted_perm : sorted ≡ₚ docs.
Proof. apply merge_sort_Permutation. Qed.

Lemma sorted_strongly : StronglySorted (doc_le key_le kf) sorted.
Proof. apply StronglySorted_merge_sort; apply _. Qed.

Lemma sorted_keys_unique : NoDup (field_value kf <$> sorted).
Proof. by rewrite sorted_perm. Qed.

Lemma sorted_keys_present : Forall (λ d, is_Some (d !! kf)) sorted.
Proof. by rewrite sorted_perm. Qed.

Lemma sorted_strictly : StronglySorted (key_lt key_le kf) sorted.
Proof.
  pose proof sorted_strongly as Hs. pose proof sorted_keys_unique as Hnd.
  induction Hs as [|d l Hs IH Hall]; [constructor|].
  rewrite fmap_cons in Hnd. apply NoDup_cons in Hnd as [Hd Hnd].
  constructor; [by apply IH|].
  apply Forall_forall. intros y Hy. split.
  - by eapply Forall_forall in Hall.
  - intros Heq. apply Hd. rewrite Heq. by apply list_elem_of_fmap_2.
Qed.

(** The filter on the key of a document of the collection keeps exactly
    the documents after it. *)
Lemma filter_cursor A a B :
  sorted = A ++ a :: B →
  filter (matches key_le (Some (FieldGt kf (field_value kf a)))) sorted = B.
Proof.
  intros Heq.
  pose proof sorted_strictly as Hs. pose proof sorted_keys_present as Hp.
  rewrite Heq in Hs, Hp |- *.
  apply Forall_app in Hp as [HpA Hp].
  apply Forall_cons in Hp as [Hpa HpB].
  rewrite filter_app, filter_cons.
  rewrite filter_none, decide_False, filter_all; [done|..].
  - apply Forall_forall. intros y Hy.
    eapply Forall_forall in HpB as [v Hv]; [|done].
    assert (key_lt key_le kf a y) as [Hle Hne].
    { apply StronglySorted_app_1_r, StronglySorted_inv in Hs as [_ Hs].
      by eapply Forall_forall in Hs. }
    unfold matches, field_value in *. rewrite Hv in *. simpl in *.
    intros Hyv. apply Hne. by apply (anti_symm key_le).
  - destruct Hpa as [v Hv]. unfold matches. rewrite Hv.
    unfold field_value. rewrite Hv. simpl. by intros [].
  - apply Forall_forall. intros x Hx.
    eapply Forall_forall in HpA as [v Hv]; [|done].
    assert (key_lt key_le kf x a) as [Hle Hne].
    { eapply (StronglySorted_app_1_elem_of _ A (a :: B)); [done..|by left]. }
    unfold matches, field_value in *. rewrite Hv in *. simpl in *.
    by intros [].
Qed.

Lemma first_answer :
  by_page (search src (first_request kf))
  = paged cap (take (N.to_nat top_limit) sorted).
Proof.
  simpl. unfold reference_search. simpl.
  rewrite filter_all; [done|]. by apply Forall_forall.
Qed.

Lemma next_answer A a B :
  sorted = A ++ a :: B →
  by_page (search src (next_request kf (field_value kf a)))
  = paged cap (take (N.to_nat top_limit) B).
Proof.
  intros Heq. pose proof (filter_cursor A a B Heq) as Hf.
  unfold sorted in Hf. simpl. unfold reference_search. simpl.
  by rewrite Hf.
Qed.

(** From the answer to a query on: the generator yields what is left of
    the collection and finishes at the first empty page. *)
Lemma run_after_query n : ∀ A R li,
  length R ≤ n → sorted = A ++ R →
  ∃ fuel evs,
    gen_run src fuel
      (with_filter kf (InResponse li (paged cap (take (N.to_nat top_limit) R))))
    = (evs, GFinished)
    ∧ concat (yielded evs) = R
    ∧ Forall (λ p, p ≠ [] ∧ length p ≤ cap) (yielded evs)
    ∧ ends_at_first_empty_page
        (paged cap (take (N.to_nat top_limit) R) :: fetches src evs).
Proof.
  induction n as [|n IH]; intros A R li Hlen Heq.
  - destruct R; [|simpl in Hlen; lia].
    exists 2, []. split_and!; try done. apply ends_at_first_empty_page_last.
  - destruct R as [|r R']; [exists 2, []; split_and!; try done;
                             apply ends_at_first_empty_page_last|].
    set (R := r :: R') in *.
    set (hits := take (N.to_nat top_limit) R).
    assert (hits ≠ []) as Hhits.
    { unfold hits, R. pose proof top_limit_pos.
      destruct (N.to_nat top_limit); [lia|done]. }
    destruct (paged_spec cap hits cap_pos Hhits) as (Hcat & Hne & Hall).
    destruct (last hits) as [a|] eqn:Hlast; [|by apply last_None in Hlast].
    pose proof Hlast as Hsplit. apply last_Some in Hsplit as [H Hsplit].
    set (B := drop (N.to_nat top_limit) R).
    assert (R = (H ++ [a]) ++ B) as HR.
    { rewrite <- Hsplit. unfold hits, B. by rewrite take_drop. }
    assert (sorted = (A ++ H) ++ a :: B) as Heq'.
    { rewrite Heq, HR. by rewrite <- !app_assoc. }
    destruct (IH ((A ++ H) ++ [a]) B (Some a))
      as (fuel & evs & Hrun & Hy & Hsz & Hend).
    { unfold B. rewrite length_drop. pose proof top_limit_pos.
      unfold R in Hlen |- *. cbn [length] in Hlen |- *. lia. }
    { rewrite Heq'. by rewrite <- !app_assoc. }
    assert (is_Some (a !! kf)) as [v Hv].
    { pose proof sorted_keys_present as Hp. rewrite Heq' in Hp.
      apply Forall_app in Hp as [_ Hp]. by apply Forall_cons in Hp as [Hp _]. }
    assert (field_value kf a = v) as Hfv by (unfold field_value; by rewrite Hv).
    exists (length (paged cap hits) + S fuel),
           ((GYield <$> paged cap hits)
              ++ GQuery (next_request kf v) :: evs).
    rewrite with_filter_pages
      by (eapply Forall_impl; [exact Hall|]; by intros ? []).
    rewrite Hcat, Hlast. simpl from_option.
    rewrite (cursor_step src kf a v fuel Hv).
    rewrite <- Hfv, (next_answer _ _ _ Heq'), Hrun. simpl.
    rewrite yielded_app, yielded_pages. simpl.
    split_and!; [done| | |].
    + rewrite concat_app, Hcat, Hy. by rewrite HR, Hsplit.
    + by apply Forall_app.
    + apply ends_at_first_empty_page_cons; [done| |].
      * eapply Forall_impl; [exact Hall|]. by intros ? [].
      * unfold fetches. rewrite queries_app, queries_pages.
        change (ends_at_first_empty_page
                  (by_page (search src (next_request kf (field_value kf a)))
                     :: fetches src evs)).
        by rewrite (next_answer _ _ _ Heq').
Qed.

(** The whole run of the range-filtered generator. *)
Lemma with_filter_run :
  ∃ fuel evs,
    gen_run src fuel (with_filter kf NotStarted) = (evs, GFinished)
    ∧ concat (yielded evs) = sorted
    ∧ Forall (λ p, p ≠ [] ∧ length p ≤ cap) (yielded evs)
    ∧ ends_at_first_empty_page (fetches src evs).
Proof.
  destruct (run_after_query (length sorted) [] sorted None)
    as (fuel & evs & Hrun & Hy & Hsz & Hend); [done..|].
  exists (S fuel), (GQuery (first_request kf) :: evs).
  change (gen_run src (S fuel) (with_filter kf NotStarted))
    with (let '(evs, st) :=
            gen_run src fuel
              (with_filter kf
                 (InResponse None (by_page (search src (first_request kf))))) in
          (GQuery (first_request kf) :: evs, st)).
  rewrite first_answer, Hrun. split_and!; [done..|].
  unfold fetches. simpl. rewrite <- first_answer in Hend. exact Hend.
Qed.
End pagination.

#[local] Transparent top_limit.

(** C1. Over a collection whose documents all carry the key field, with
    pairwise different key values under a total order, and for a key field
    that is sortable and filterable, the range-filtered generator finishes,
    and the pages it yields, put end to end, hold every document of the
    collection exactly once, in strictly ascending key order; this for
    every page size of the service (each page is non-empty and within that
    size). *)
Theorem C1_range_filtered_paging_visits_each_document_once
    (key_le : relation string)
    `{!RelDecision key_le, !PartialOrder key_le, !Total key_le}
    (index : search_index) (docs : list document) (cap : nat)
    (key_field : search_field) :
  can_use_filter key_field = true →
  0 < cap →
  NoDup (field_value (name key_field) <$> docs) →
  Forall (λ d, is_Some (d !! name key_field)) docs →
  ∃ fuel evs,
    gen_run (reference_source key_le index docs cap) fuel
      (all_documents key_field) = (evs, GFinished)
    ∧ concat (yielded evs) ≡ₚ docs
    ∧ NoDup (concat (yielded evs))
    ∧ StronglySorted (key_lt key_le (name key_field)) (concat (yielded evs))
    ∧ Forall (λ p, p ≠ [] ∧ length p ≤ cap) (yielded evs).
Proof.
  intros Hcan Hcap Hnd Hkeys.
  destruct (with_filter_run key_le index docs cap (name key_field) Hcap Hnd Hkeys)
    as (fuel & evs & Hrun & Hcat & Hsz & _).
  exists fuel, evs. unfold all_documents. rewrite Hcan.
  split_and!; [done| | | |done]; rewrite Hcat.
  - apply sorted_perm.
  - eapply NoDup_fmap_1. by apply sorted_keys_unique.
  - by apply sorted_strictly.
Qed.

Lemma C1_witness :
  ∃ fuel evs,
    gen_run (reference_source String.le sample_index sample_docs 2) fuel
      (all_documents id_field) = (evs, GFinished)
    ∧ concat (yielded evs) ≡ₚ sample_docs
    ∧ NoDup (concat (yielded evs))
    ∧ StronglySorted (key_lt String.le "id") (concat (yielded evs))
    ∧ Forall (λ p, p ≠ [] ∧ length p ≤ 2) (yielded evs).
Proof.
  apply (C1_range_filtered_paging_visits_each_document_once
           String.le sample_index sample_docs 2 id_field).
  - reflexivity.
  - lia.
  - by_decide.
  - by_decide.
Defined.






(** * The configuration cell *)

Lemma length_pos_nonempty (s : string) : 0 < String.length s ↔ s ≠ EmptyString.
Proof. destruct s; simpl; split; (done || lia). Qed.

(** X1. The cell needs all six variables to be set: it builds a
    configuration exactly when each of them is present, and otherwise
    stops with a key error naming the first one, in reading order, that is
    missing (also when that one has a fallback, as the target endpoint). *)
Theorem configuration_needs_every_variable (env : gmap string string) :
  match Config.load_configuration env with
  | inr _ => Forall (λ name, is_Some (env !! name)) Config.variables
  | inl e =>
      ∃ before name after,
        Config.variables = before ++ name :: after
        ∧ Forall (λ name, is_Some (env !! name)) before
        ∧ env !! name = None
        ∧ e = KeyError name
  end.
Proof.
  unfold Config.load_configuration, Config.environ, Config.variables.
  destruct (env !! "AZURE_SEARCH_SERVICE_ENDPOINT") eqn:H1;
    [|exists []; missing_variable].
  destruct (env !! "AZURE_SEARCH_ADMIN_KEY") eqn:H2;
    [|exists ["AZURE_SEARCH_SERVICE_ENDPOINT"]; missing_variable].
  destruct (env !! "AZURE_SEARCH_INDEX") eqn:H3;
    [|exists ["AZURE_SEARCH_SERVICE_ENDPOINT"; "AZURE_SEARCH_ADMIN_KEY"];
      missing_variable].
  destruct (env !! "AZURE_TARGET_SEARCH_SERVICE_ENDPOINT") eqn:H4;
    [|exists ["AZURE_SEARCH_SERVICE_ENDPOINT"; "AZURE_SEARCH_ADMIN_KEY";
              "AZURE_SEARCH_INDEX"]; missing_variable].
  destruct (env !! "AZURE_TARGET_SEARCH_ADMIN_KEY") eqn:H5;
    [|exists ["AZURE_SEARCH_SERVICE_ENDPOINT"; "AZURE_SEARCH_ADMIN_KEY";
              "AZURE_SEARCH_INDEX"; "AZURE_TARGET_SEARCH_SERVICE_ENDPOINT"];
      missing_variable].
  destruct (env !! "AZURE_TARGET_SEARCH_INDEX") eqn:H6;
    [|exists ["AZURE_SEARCH_SERVICE_ENDPOINT"; "AZURE_SEARCH_ADMIN_KEY";
              "AZURE_SEARCH_INDEX"; "AZURE_TARGET_SEARCH_SERVICE_ENDPOINT";
              "AZURE_TARGET_SEARCH_ADMIN_KEY"]; missing_variable].
  repeat constructor; eauto.
Qed.

(** X2. When the cell succeeds, the target endpoint is the source endpoint
    exactly when the target variable is empty (else it is that variable),
    and each credential is a key credential exactly when its own key
    variable is non-empty: an empty target key gives the default
    credential, never the key of the source. *)
Theorem configuration_defaults (env : gmap string string)
    (c : Config.configuration) (source_key endpoint target_key : string) :
  Config.load_configuration env = inr c →
  env !! "AZURE_SEARCH_ADMIN_KEY" = Some source_key →
  env !! "AZURE_TARGET_SEARCH_SERVICE_ENDPOINT" = Some endpoint →
  env !! "AZURE_TARGET_SEARCH_ADMIN_KEY" = Some target_key →
  env !! "AZURE_SEARCH_SERVICE_ENDPOINT" = Some (Config.source_endpoint c)
  ∧ env !! "AZURE_SEARCH_INDEX" = Some (Config.source_index_name c)
  ∧ env !! "AZURE_TARGET_SEARCH_INDEX" = Some (Config.target_index_name c)
  ∧ Config.target_endpoint c
    = (if decide (endpoint = EmptyString)
       then Config.source_endpoint c else endpoint)
  ∧ Config.source_credential c
    = (if decide (source_key = EmptyString)
       then Config.DefaultAzureCredential
       else Config.AzureKeyCredential source_key)
  ∧ Config.target_credential c
    = (if decide (target_key = EmptyString)
       then Config.DefaultAzureCredential
       else Config.AzureKeyCredential target_key).
Proof.
  unfold Config.load_configuration, Config.environ, Config.credential_of.
  intros Hload Hsk Hte Htk. rewrite Hsk, Hte, Htk in Hload.
  destruct (env !! "AZURE_SEARCH_SERVICE_ENDPOINT"); [|done].
  destruct (env !! "AZURE_SEARCH_INDEX"); [|done].
  destruct (env !! "AZURE_TARGET_SEARCH_INDEX"); [|done].
  simplify_eq/=. split_and!; try done.
  - case_bool_decide as H; case_decide; try done;
      apply length_pos_nonempty in H || (exfalso; apply H, length_pos_nonempty); done.
  - case_bool_decide as H; case_decide; try done;
      apply length_pos_nonempty in H || (exfalso; apply H, length_pos_nonempty); done.
  - case_bool_decide as H; case_decide; try done;
      apply length_pos_nonempty in H || (exfalso; apply H, length_pos_nonempty); done.
Qed.

Lemma configuration_defaults_witness :
  ∃ c, Config.load_configuration Config.same_service_env = inr c
       ∧ Config.target_endpoint c = Config.source_endpoint c
       ∧ Config.source_credential c = Config.AzureKeyCredential "secret"
       ∧ Config.target_credential c = Config.DefaultAzureCredential.
Proof.
  destruct (Config.load_configuration Config.same_service_env) as [e|c] eqn:Hload;
    [by vm_compute in Hload|].
  exists c. split; [done|].
  destruct (configuration_defaults Config.same_service_env c
              "secret" EmptyString EmptyString Hload)
    as (_ & _ & _ & H1 & H2 & H3); [by vm_compute..|].
  by split_and!.
Defined.

(** * The range-filtered generator against any service *)

Lemma gen_run_step src fuel g :
  gen_run src (S fuel) g
  = match gen_step src g with
    | Yielded p f =>
        (GYield p :: (gen_run src fuel (resume g f)).1,
         (gen_run src fuel (resume g f)).2)
    | Queried req f =>
        (GQuery req :: (gen_run src fuel (resume g f)).1,
         (gen_run src fuel (resume g f)).2)
    | Skipped f => gen_run src fuel (resume g f)
    | Finished => ([], GFinished)
    | GenRaised e => ([], GRaised e)
    end.
Proof.
  simpl. destruct (gen_step src g); try done; by destruct (gen_run _ _ _).
Qed.

Lemma final_item_cons li (p : page) ps :
  final_item li (p :: ps) = final_item (last p) ps.
Proof.
  unfold final_item. rewrite last_cons. by destruct (last ps).
Qed.

(** Going through the pages of one answer: the non-empty ones are yielded
    in order, the empty ones passed over. *)
Lemma with_filter_answer src kf ps li fuel :
  gen_run src (length ps + fuel) (with_filter kf (InResponse li ps))
  = ((GYield <$> nonempty_pages ps)
       ++ (gen_run src fuel
             (with_filter kf (InResponse (final_item li ps) []))).1,
     (gen_run src fuel
        (with_filter kf (InResponse (final_item li ps) []))).2).
Proof.
  revert li. induction ps as [|p ps IH]; intros li.
  - simpl. by destruct (gen_run _ _ _).
  - change (length (p :: ps) + fuel) with (S (length ps + fuel)).
    rewrite gen_run_step. unfold nonempty_pages. rewrite filter_cons.
    rewrite final_item_cons.
    destruct p as [|d p].
    + change (gen_step src (with_filter kf (InResponse li ([] :: ps))))
        with (Skipped (InResponse None ps)).
      rewrite decide_False by (by intros []).
      apply (IH None).
    + assert (gen_step src (with_filter kf (InResponse li ((d :: p) :: ps)))
              = Yielded (d :: p) (InResponse (last (d :: p)) ps)) as ->.
      { unfold gen_step, search_results_with_filter. cbn [mode frame with_filter].
        by rewrite bool_decide_eq_true_2 by (simpl; lia). }
      rewrite decide_True by done.
      change (resume _ _) with (with_filter kf (InResponse (last (d :: p)) ps)).
      by rewrite (IH (last (d :: p))).
Qed.

Lemma with_filter_yields_nonempty src kf fuel f :
  Forall (λ p : page, p ≠ [])
    (yielded (gen_run src fuel (with_filter kf f)).1).
Proof.
  revert f. induction fuel as [|fuel IH]; intros f; [constructor|].
  rewrite gen_run_step.
  destruct (gen_step src (with_filter kf f)) as [p f'|req f'|f'| |e] eqn:Hstep;
    simpl; try done; try apply IH.
  constructor; [|apply IH].
  unfold gen_step in Hstep. simpl in Hstep.
  unfold search_results_with_filter in Hstep.
  repeat case_match; simplify_eq.
  match goal with H : bool_decide _ = true |- _ =>
    apply bool_decide_eq_true_1 in H end.
  intros ->. simpl in *. lia.
Qed.

Lemma follows_cursor_from src kf fuel li rest cursor :
  li = None ∨ li = cursor →
  follows_cursor kf cursor
    (gen_run src fuel (with_filter kf (InResponse li rest))).1.
Proof.
  revert li rest cursor. induction fuel as [|fuel IH]; intros li rest cursor Hli;
    [done|].
  rewrite gen_run_step. unfold gen_step. simpl.
  destruct rest as [|p rest].
  - destruct li as [d|]; [|done].
    destruct (dict_truthy d); [|done].
    destruct (d !! kf) as [v|] eqn:Hv; [|done].
    simpl. split; [|by apply IH].
    destruct Hli as [?|<-]; [done|]. by exists d, v.
  - case_bool_decide; simpl; apply IH; auto.
Qed.

(** X4. Whatever the service answers, the range-filtered generator starts
    with the query ordered by the key field and without filter, and every
    later query is the one for the keys greater than the key of the last
    document of the page yielded last (same order, same top). *)
Theorem with_filter_queries_follow_the_cursor
    (src : source_service) (kf : string) (fuel : nat) :
  match (gen_run src fuel (with_filter kf NotStarted)).1 with
  | [] => fuel = 0
  | e :: evs => e = GQuery (first_request kf) ∧ follows_cursor kf None evs
  end.
Proof.
  destruct fuel as [|fuel]; [done|].
  rewrite gen_run_step.
  change (gen_step src (with_filter kf NotStarted))
    with (Queried (first_request kf)
            (InResponse None (by_page (search src (first_request kf))))).
  cbv beta iota. simpl fst. split; [done|].
  apply follows_cursor_from. by left.
Qed.

(** X5. An answer that ends with an empty page ends the paging: its
    non-empty pages are yielded, no further query is issued, and the
    generator finishes. *)
Theorem with_filter_stops_at_trailing_empty_page
    (src : source_service) (kf : string) (li : option document)
    (ps : list page) :
  gen_run src (length ps + 2) (with_filter kf (InResponse li (ps ++ [[]])))
  = (GYield <$> nonempty_pages ps, GFinished).
Proof.
  replace (length ps + 2) with (length (ps ++ [[]]) + 1)
    by (rewrite length_app; simpl; lia).
  rewrite with_filter_answer.
  unfold final_item. rewrite last_snoc. simpl.
  unfold nonempty_pages. rewrite filter_app, filter_cons, filter_nil.
  rewrite decide_False by (by intros []).
  by rewrite !app_nil_r.
Qed.

(** X6. When the last document of an answer is a non-empty dictionary
    without the key field, the generator yields the pages of that answer
    and then fails with a key error on the field name. *)
Theorem with_filter_key_error_on_missing_key
    (src : source_service) (kf : string) (li : option document)
    (ps : list page) (p : page) (d : document) :
  last p = Some d → d ≠ ∅ → d !! kf = None →
  gen_run src (length ps + 2) (with_filter kf (InResponse li (ps ++ [p])))
  = (GYield <$> (nonempty_pages ps ++ [p]), GRaised (KeyError kf)).
Proof.
  intros Hlast Hne Hkf.
  replace (length ps + 2) with (length (ps ++ [p]) + 1)
    by (rewrite length_app; simpl; lia).
  rewrite with_filter_answer.
  unfold final_item. rewrite last_snoc, Hlast.
  rewrite gen_run_step. unfold gen_step. simpl.
  unfold dict_truthy. rewrite bool_decide_eq_true_2 by done. rewrite Hkf.
  simpl. rewrite app_nil_r. unfold nonempty_pages.
  rewrite filter_app, filter_cons, filter_nil.
  rewrite decide_True; [done|]. intros ->. done.
Qed.

Lemma with_filter_key_error_on_missing_key_witness :
  gen_run stalling_source 2
    (with_filter "id" (InResponse None [[doc "k1"; {[ "title" := "t" ]}]]))
  = ([GYield [doc "k1"; {[ "title" := "t" ]}]], GRaised (KeyError "id")).
Proof.
  apply (with_filter_key_error_on_missing_key stalling_source "id" None []
           [doc "k1"; {[ "title" := "t" ]}] {[ "title" := "t" ]}).
  - reflexivity.
  - by_decide.
  - by vm_compute.
Defined.

(** * What the loop does, for any objects *)

Lemma is_create_prints lines : Forall (λ e, is_create e = false) (EvPrint <$> lines).
Proof. induction lines; by constructor. Qed.

Section loop_trace.
Context {T : Type}.
Context (src : source_service) (tgt : target_service T) (om : object_model).

Lemma restore_pages_trace fuel g (s : run_state T) :
  ∃ post,
    trace (restore_pages src tgt om fuel g s).2 = trace s ++ post
    ∧ Forall (λ e, is_create e = false) post
    ∧ uploaded post `prefix_of` yielded (gen_run src fuel g).1
    ∧ searches post `prefix_of` queries (gen_run src fuel g).1
    ∧ (∀ g', (restore_pages src tgt om fuel g s).1 = Returned g' →
         uploaded post = yielded (gen_run src fuel g).1
         ∧ searches post = queries (gen_run src fuel g).1
         ∧ (gen_run src fuel g).2 = GFinished).
Proof.
  revert g s. induction fuel as [|fuel IH]; intros g s.
  { exists []. simpl. rewrite app_nil_r. by split_and!. }
  rewrite gen_run_step. simpl.
  destruct (gen_step src g) as [p f|req f|f| |e] eqn:Hstep; simpl.
  - destruct (restore_page_effect tgt om p s) as (lines & Htr & _).
    destruct (restore_page tgt om p s) as [[e|] s1]; simpl in *.
    + eexists. split; [exact Htr|]. split_and!.
      * repeat constructor. apply is_create_prints.
      * simpl. rewrite uploaded_prints. apply prefix_cons, prefix_nil.
      * simpl. rewrite searches_prints. apply prefix_nil.
      * done.
    + destruct (IH (resume g f) s1) as (post & Hpost & Hc & Hu & Hs & Hret).
      exists (EvUploadDocuments p
                :: EvProgressUpdate (length (upload_documents tgt (target s) p).1)
                :: (EvPrint <$> lines) ++ post).
      rewrite Hpost, Htr, <- app_assoc. split; [done|]. split_and!.
      * repeat constructor. apply Forall_app. split; [apply is_create_prints|done].
      * simpl. rewrite uploaded_app, uploaded_prints. simpl.
        by apply prefix_cons.
      * simpl. rewrite searches_app, searches_prints. done.
      * intros g' Hg'. destruct (Hret g' Hg') as (Hu' & Hs' & Hst).
        simpl. rewrite uploaded_app, uploaded_prints, searches_app, searches_prints.
        simpl. by rewrite Hu', Hs', Hst.
  - destruct (IH (resume g f) (emit (EvSearch req) s))
      as (post & Hpost & Hc & Hu & Hs & Hret).
    exists (EvSearch req :: post). rewrite Hpost. simpl. rewrite <- app_assoc.
    split; [done|]. split_and!; [by constructor|done|by apply prefix_cons|].
    intros g' Hg'. destruct (Hret g' Hg') as (Hu' & Hs' & Hst).
    by rewrite Hu', Hs', Hst.
  - apply IH.
  - exists []. rewrite app_nil_r. by split_and!.
  - exists []. rewrite app_nil_r. by split_and!.
Qed.

(** The state paging starts from. *)
Lemma run_trace fuel se sk sn te tk tn t kf :
  last (key_fields (fields (get_index src sn))) = Some kf →
  ∃ post,
    trace (backup_and_restore_index src tgt om fuel se sk sn te tk tn t).2
    = preamble sn tn (get_index src sn) kf
        ++ EvProgressBar (total_count src) :: post
    ∧ Forall (λ e, is_create e = false) post
    ∧ uploaded post `prefix_of` yielded (gen_run src fuel (all_documents kf)).1
    ∧ searches post `prefix_of` queries (gen_run src fuel (all_documents kf)).1
    ∧ (∀ v, (backup_and_restore_index src tgt om fuel se sk sn te tk tn t).1
            = Returned v →
         uploaded post = yielded (gen_run src fuel (all_documents kf)).1
         ∧ searches post = queries (gen_run src fuel (all_documents kf)).1
         ∧ (gen_run src fuel (all_documents kf)).2 = GFinished).
Proof.
  intros Hkf. rewrite (run_with_key_field _ _ _ _ _ _ _ _ _ _ _ kf Hkf).
  unfold restore_with_key_field.
  match goal with
  | |- context [restore_pages src tgt om fuel ?g ?s0] =>
      destruct (restore_pages_trace fuel g s0)
        as (post & Hpost & Hc & Hu & Hs & Hret);
      assert (trace s0 = preamble sn tn (get_index src sn) kf
                           ++ [EvProgressBar (total_count src)]) as Hs0;
      [|destruct (restore_pages src tgt om fuel g s0) as [[g1|e|] s1]]
  end; cbn [fst snd] in *.
  - unfold preamble. simpl.
    case_bool_decide; destruct (can_use_filter kf); simpl;
      by rewrite <- ?app_assoc.
  - exists (post ++ (EvPrint <$> summary_lines sn tn (failed_documents s1)
                                   (failed_keys s1))).
    rewrite summary_trace, Hpost, Hs0, <- !app_assoc. simpl.
    rewrite uploaded_app, uploaded_prints, searches_app, searches_prints,
      !app_nil_r.
    split_and!; [done| |done|done|].
    + apply Forall_app. split; [done|apply is_create_prints].
    + intros v _. by apply (Hret g1).
  - exists post. rewrite Hpost, Hs0, <- !app_assoc. by split_and!.
  - exists post. rewrite Hpost, Hs0, <- !app_assoc. by split_and!.
Qed.
End loop_trace.

(** X7. A run uploads the pages the generator yields, unchanged and in
    order: at any point the uploads are an initial part of the yielded
    pages, and the queries of the run, after the count query, an initial
    part of the generator's; a run that returns has uploaded every page the
    generator yielded, each once, and the generator has finished. *)
Theorem uploads_are_the_yielded_pages {T}
    (src : source_service) (tgt : target_service T) (om : object_model)
    (fuel : nat) (se sk sn te tk tn : string) (t : T) (kf : search_field) :
  last (key_fields (fields (get_index src sn))) = Some kf →
  let r := backup_and_restore_index src tgt om fuel se sk sn te tk tn t in
  let evs := (gen_run src fuel (all_documents kf)).1 in
  uploaded (trace r.2) `prefix_of` yielded evs
  ∧ (∃ qs, searches (trace r.2) = total_count_request :: qs
           ∧ qs `prefix_of` queries evs)
  ∧ (∀ v, r.1 = Returned v →
       uploaded (trace r.2) = yielded evs
       ∧ searches (trace r.2) = total_count_request :: queries evs
       ∧ (gen_run src fuel (all_documents kf)).2 = GFinished).
Proof.
  intros Hkf r evs.
  destruct (run_trace src tgt om fuel se sk sn te tk tn t kf Hkf)
    as (post & Htr & _ & Hu & Hs & Hret).
  fold r in Htr, Hret.
  assert (uploaded (trace r.2) = uploaded post
          ∧ searches (trace r.2) = total_count_request :: searches post)
    as [Hup Hse].
  { rewrite Htr. unfold preamble.
    rewrite !uploaded_app, !searches_app. simpl.
    case_bool_decide; destruct (can_use_filter kf); simpl; done. }
  rewrite Hup, Hse. split_and!; [done|by eexists|].
  intros v Hv. destruct (Hret v Hv) as (Hu' & Hs' & Hst).
  by rewrite Hu', Hs', Hst.
Qed.

Lemma uploads_are_the_yielded_pages_witness :
  let src := reference_source String.le sample_index sample_docs 2 in
  let r := backup_and_restore_index src (reference_target "id" rejects_k5)
             sdk_objects 20 "se" "sk" "source" "te" "tk" "target" no_store in
  let evs := (gen_run src 20 (all_documents id_field)).1 in
  uploaded (trace r.2) `prefix_of` yielded evs
  ∧ (∃ qs, searches (trace r.2) = total_count_request :: qs
           ∧ qs `prefix_of` queries evs)
  ∧ (∀ v, r.1 = Returned v →
       uploaded (trace r.2) = yielded evs
       ∧ searches (trace r.2) = total_count_request :: queries evs
       ∧ (gen_run src 20 (all_documents id_field)).2 = GFinished).
Proof.
  apply (uploads_are_the_yielded_pages
           (reference_source String.le sample_index sample_docs 2)).
  reflexivity.
Defined.

(** X8. The target index is created once, before paging starts and so
    before any upload, as the source definition under the target name with
    its fields unchanged; a warning naming the fields that are not
    retrievable comes first when there are such fields, and does not stop
    the run.  Nothing after the progress bar is set up creates an index. *)
Theorem target_index_is_created_once_before_uploads {T}
    (src : source_service) (tgt : target_service T) (om : object_model)
    (fuel : nat) (se sk sn te tk tn : string) (t : T) (kf : search_field) :
  last (key_fields (fields (get_index src sn))) = Some kf →
  let r := backup_and_restore_index src tgt om fuel se sk sn te tk tn t in
  ∃ post,
    trace r.2
    = EvGetIndex sn
      :: (if bool_decide (hidden_fields (fields (get_index src sn)) ≠ [])
          then [EvPrint (non_retrievable_warning
                           (hidden_fields (fields (get_index src sn))))]
          else [])
      ++ EvCreateOrUpdateIndex
           {| index_name := tn; fields := fields (get_index src sn) |}
      :: EvSearch total_count_request
      :: (if can_use_filter kf then [] else [EvPrint truncation_warning])
      ++ EvPrint "Backing up and restoring documents:"
      :: EvProgressBar (total_count src) :: post
    ∧ Forall (λ e, is_create e = false) post.
Proof.
  intros Hkf r.
  destruct (run_trace src tgt om fuel se sk sn te tk tn t kf Hkf)
    as (post & Htr & Hc & _).
  exists post. split; [|done]. fold r in Htr. rewrite Htr.
  unfold preamble, rename.
  destruct (hidden_fields (fields (get_index src sn))) eqn:Hh;
    destruct (can_use_filter kf); simpl; done.
Qed.

Lemma target_index_is_created_once_before_uploads_witness :
  let src := reference_source String.le unsortable_index sample_docs 2 in
  let r := backup_and_restore_index src (reference_target "id" rejects_k5)
             sdk_objects 20 "se" "sk" "source" "te" "tk" "target" no_store in
  ∃ post,
    trace r.2
    = EvGetIndex "source"
      :: (if bool_decide (hidden_fields (fields (get_index src "source")) ≠ [])
          then [EvPrint (non_retrievable_warning
                           (hidden_fields (fields (get_index src "source"))))]
          else [])
      ++ EvCreateOrUpdateIndex
           {| index_name := "target"; fields := fields (get_index src "source") |}
      :: EvSearch total_count_request
      :: (if can_use_filter unsortable_id_field then []
          else [EvPrint truncation_warning])
      ++ EvPrint "Backing up and restoring documents:"
      :: EvProgressBar (total_count src) :: post
    ∧ Forall (λ e, is_create e = false) post.
Proof.
  apply (target_index_is_created_once_before_uploads
           (reference_source String.le unsortable_index sample_docs 2)).
  reflexivity.
Defined.

(** * Runs on the objects of the SDK *)

Section sdk_failures.
Context {T : Type}.
Context (src : source_service) (tgt : target_service T).

Lemma scan_result_sdk_state p result items (s : run_state T) :
  let r := scan_result sdk_objects p result items s in
  failed_keys r.2 = failed_keys s
  ∧ trace r.2 = trace s
  ∧ match r.1 with
    | None => failed_documents r.2 = failed_documents s
    | Some _ => failed_documents r.2 = failed_documents s + 1
    end.
Proof.
  revert s. induction items as [|item items IH]; intros s; simpl; [done|].
  destruct (succeeded item); [apply IH|done].
Qed.

Lemma restore_pages_sdk_state fuel g (s : run_state T) :
  let r := restore_pages src tgt sdk_objects fuel g s in
  failed_keys r.2 = failed_keys s
  ∧ match r.1 with
    | Raised (AttributeError _) =>
        failed_documents r.2 = failed_documents s + 1
    | _ => failed_documents r.2 = failed_documents s
    end.
Proof.
  revert g s. induction fuel as [|fuel IH]; intros g s; simpl; [done|].
  destruct (gen_step src g) as [p f|req f|f| |e] eqn:Hstep; simpl.
  - unfold restore_page.
    destruct (upload_documents tgt (target s) p) as [result t'].
    match goal with
    | |- context [scan_result sdk_objects p result result ?s0] =>
        pose proof (scan_result_sdk_state p result result s0) as (Hk & _ & Hn);
        destruct (scan_result sdk_objects p result result s0) as [[e|] s1] eqn:Hscan
    end; simpl in *.
    + apply scan_result_sdk in Hscan as ->. done.
    + destruct (IH (resume g f) s1) as [Hk' Hn']. rewrite Hk', Hk.
      split; [done|]. by rewrite <- Hn.
  - apply (IH (resume g f) (emit (EvSearch req) s)).
  - apply IH.
  - done.
  - apply gen_step_raised in Hstep as [k ->]. done.
Qed.
End sdk_failures.

(** X9. On the objects of the SDK the failure report is never reached: in
    every run the list of failed keys stays empty; a run that returns met
    no failed result and prints "All documents uploaded successfully."; and
    a run that counted a failure ended right there with the attribute error
    of [result.index_of]. *)
Theorem sdk_run_never_reports_failed_keys {T}
    (src : source_service) (tgt : target_service T)
    (fuel : nat) (se sk sn te tk tn : string) (t : T) :
  let r := backup_and_restore_index src tgt sdk_objects fuel
             se sk sn te tk tn t in
  failed_keys r.2 = []
  ∧ (∀ v, r.1 = Returned v →
       failed_documents r.2 = 0
       ∧ EvPrint "All documents uploaded successfully." ∈ trace r.2)
  ∧ (failed_documents r.2 ≠ 0 →
       failed_documents r.2 = 1 ∧ r.1 = Raised (AttributeError "index_of")).
Proof.
  simpl. unfold backup_and_restore_index.
  destruct (scan_fields _) as [nr [kf|]]; [|by split_and!]. simpl.
  unfold restore_with_key_field.
  match goal with
  | |- context [restore_pages src tgt sdk_objects fuel ?g ?s0] =>
      pose proof (restore_pages_sdk_state src tgt fuel g s0) as [Hk Hn];
      assert (failed_keys s0 = [] ∧ failed_documents s0 = 0) as [Hk0 Hn0]
        by (split; by repeat case_match);
      destruct (restore_pages src tgt sdk_objects fuel g s0)
        as [[g1|e|] s1] eqn:Hrun
  end; cbn [fst snd] in *; rewrite Hk0 in Hk; rewrite Hn0 in Hn.
  - destruct (summary_locals sn tn s1) as (-> & -> & _).
    split_and!; [done| |by rewrite Hn].
    intros v _. split; [done|].
    rewrite summary_trace, Hn. unfold summary_lines. simpl. set_solver.
  - split_and!; [done..|].
    pose proof (restore_pages_sdk_raised _ _ _ _ _ _ _ Hrun) as [->|[k ->]].
    + done.
    + by rewrite Hn.
  - split_and!; [done..|]. by rewrite Hn.
Qed.

(** * A target that accepts every document *)

Section accepting.
Context {T : Type}.
Context (src : source_service) (tgt : target_service T) (om : object_model).
Hypothesis accepts :
  ∀ t p, Forall (λ item, succeeded item = true) (upload_documents tgt t p).1.

Lemma scan_result_all_succeeded p result items (s : run_state T) :
  Forall (λ item, succeeded item = true) items →
  scan_result om p result items s = (None, s).
Proof.
  induction 1 as [|item items Hok _ IH]; simpl; [done|]. by rewrite Hok.
Qed.

Lemma restore_pages_accepting fuel g (s : run_state T) :
  let r := restore_pages src tgt om fuel g s in
  let pages := yielded (gen_run src fuel g).1 in
  outcome_status r.1 = (gen_run src fuel g).2
  ∧ uploaded (trace r.2) = uploaded (trace s) ++ pages
  ∧ target r.2 = upload_pages tgt (target s) pages
  ∧ printed (trace r.2) = printed (trace s)
  ∧ failed_documents r.2 = failed_documents s
  ∧ failed_keys r.2 = failed_keys s.
Proof.
  revert g s. induction fuel as [|fuel IH]; intros g s.
  { simpl. by rewrite app_nil_r. }
  rewrite gen_run_step. simpl.
  destruct (gen_step src g) as [p f|req f|f| |e] eqn:Hstep; simpl;
    try (by rewrite app_nil_r).
  - unfold restore_page. pose proof (accepts (target s) p) as Hok.
    destruct (upload_documents tgt (target s) p) as [result t'] eqn:Hup.
    rewrite (scan_result_all_succeeded _ _ _ _ Hok).
    edestruct IH as (-> & -> & -> & -> & -> & ->).
    simpl. rewrite !uploaded_app, !printed_app. simpl.
    rewrite <- !app_assoc, !app_nil_r. unfold upload_pages at 2. simpl.
    done.
  - edestruct IH as (-> & -> & -> & -> & -> & ->).
    simpl. by rewrite uploaded_app, printed_app, !app_nil_r.
  - apply IH.
Qed.
End accepting.

(** X10. When no per-document result reports a failure, the loop neither
    prints nor counts anything and, whatever the objects are, uploads every
    page the generator yields and ends as the generator does; the target is
    then what uploading those pages one after the other makes it. *)
Theorem run_without_failures_uploads_every_page {T}
    (src : source_service) (tgt : target_service T) (om : object_model)
    (fuel : nat) (g : generator) (s : run_state T) :
  (∀ t p, Forall (λ item, succeeded item = true) (upload_documents tgt t p).1) →
  let r := restore_pages src tgt om fuel g s in
  let pages := yielded (gen_run src fuel g).1 in
  outcome_status r.1 = (gen_run src fuel g).2
  ∧ uploaded (trace r.2) = uploaded (trace s) ++ pages
  ∧ target r.2 = upload_pages tgt (target s) pages
  ∧ printed (trace r.2) = printed (trace s)
  ∧ failed_documents r.2 = failed_documents s
  ∧ failed_keys r.2 = failed_keys s.
Proof. intros Hok. by apply restore_pages_accepting. Qed.

Lemma upload_all_accepts id_field p t :
  Forall (λ item, succeeded item = true) (upload_all id_field accepts_all p t).1.
Proof.
  revert t. induction p as [|d p IH]; intros t; simpl; [constructor|].
  specialize (IH (t.1, <[field_value id_field d := d]> t.2)).
  destruct (upload_all _ _ p _) as [rs t']. by constructor.
Qed.

Lemma run_without_failures_uploads_every_page_witness :
  let src := reference_source String.le sample_index sample_docs 2 in
  let tgt := reference_target "id" accepts_all in
  let g := {| mode := WithFilter "id"; frame := NotStarted |} in
  let r := restore_pages src tgt sdk_objects 20 g (initial_state no_store) in
  let pages := yielded (gen_run src 20 g).1 in
  outcome_status r.1 = (gen_run src 20 g).2
  ∧ uploaded (trace r.2) = uploaded (trace (initial_state no_store)) ++ pages
  ∧ target r.2 = upload_pages tgt (target (initial_state no_store)) pages
  ∧ printed (trace r.2) = printed (trace (initial_state no_store))
  ∧ failed_documents r.2 = failed_documents (initial_state no_store)
  ∧ failed_keys r.2 = failed_keys (initial_state no_store).
Proof.
  apply (run_without_failures_uploads_every_page
           (reference_source String.le sample_index sample_docs 2)
           (reference_target "id" accepts_all)).
  intros t p. apply upload_all_accepts.
Defined.

(** * Round trip through the reference services *)

Lemma upload_all_accepting id_field p t :
  (upload_all id_field accepts_all p t).2
  = (t.1, foldl (λ m d, <[field_value id_field d := d]> m) t.2 p).
Proof.
  revert t. induction p as [|d p IH]; intros t; simpl; [by destruct t|].
  specialize (IH (t.1, <[field_value id_field d := d]> t.2)).
  destruct (upload_all _ _ p _) as [rs t']. simpl in *. done.
Qed.

Lemma upload_pages_accepting id_field pages t :
  upload_pages (reference_target id_field accepts_all) t pages
  = (t.1, foldl (λ m d, <[field_value id_field d := d]> m) t.2 (concat pages)).
Proof.
  revert t. induction pages as [|p pages IH]; intros t; simpl; [by destruct t|].
  unfold upload_pages in *. simpl. rewrite IH, upload_all_accepting. simpl.
  by rewrite foldl_app.
Qed.

Lemma keyed_fst id_field (docs : list document) :
  ((λ d, (field_value id_field d, d)) <$> docs).*1 = field_value id_field <$> docs.
Proof. rewrite <- list_fmap_compose. done. Qed.

Lemma foldl_insert_stored id_field (docs : list document) (m : gmap string document) :
  foldl (λ m d, <[field_value id_field d := d]> m) m docs
  = list_to_map (reverse ((λ d, (field_value id_field d, d)) <$> docs)) ∪ m.
Proof.
  revert m. induction docs as [|d docs IH]; intros m; simpl.
  - by rewrite (left_id_L ∅ (∪)).
  - rewrite IH, reverse_cons, list_to_map_app. simpl.
    rewrite insert_empty, <- (assoc_L (∪)).
    by rewrite <- insert_union_singleton_l.
Qed.

Lemma stored_of_permutation id_field (docs docs' : list document) :
  NoDup (field_value id_field <$> docs) → docs' ≡ₚ docs →
  foldl (λ m d, <[field_value id_field d := d]> m) ∅ docs'
  = stored id_field docs.
Proof.
  intros Hnd Hperm. rewrite foldl_insert_stored, (right_id_L ∅ (∪)).
  unfold stored. apply list_to_map_proper.
  - by rewrite fmap_reverse, keyed_fst, reverse_Permutation, Hperm.
  - by rewrite reverse_Permutation, Hperm.
Qed.

Lemma uploaded_preamble sn tn index kf : uploaded (preamble sn tn index kf) = [].
Proof.
  unfold preamble. case_bool_decide; by destruct (can_use_filter kf).
Qed.

Lemma summary_target {T} sn tn (s : run_state T) :
  target (summary sn tn s) = target s.
Proof. unfold summary, print. by case_bool_decide. Qed.

Section round_trip.
Context (key_le : relation string).
Context `{!RelDecision key_le, !PartialOrder key_le, !Total key_le}.
Context (index : search_index) (docs : list document) (cap : nat).
Context (kf : search_field) (om : object_model).
Context (se sk sn te tk tn : string) (schema : option search_index).
Hypothesis key_field_found : last (key_fields (fields index)) = Some kf.
Hypothesis key_field_capable : can_use_filter kf = true.
Hypothesis cap_pos : 0 < cap.
Hypothesis keys_unique : NoDup (field_value (name kf) <$> docs).
Hypothesis keys_present : Forall (λ d, is_Some (d !! name kf)) docs.

Let src := reference_source key_le index docs cap.
Let tgt := reference_target (name kf) accepts_all.

Lemma round_trip_run :
  ∃ fuel,
    let r := backup_and_restore_index src tgt om fuel se sk sn te tk tn (schema, ∅) in
    (∃ v, r.1 = Returned v)
    ∧ target r.2 = (Some (rename tn index), stored (name kf) docs)
    ∧ progress_n r.2 = length docs
    ∧ failed_documents r.2 = 0.
Proof.
  destruct (with_filter_run key_le index docs cap (name kf) cap_pos
              keys_unique keys_present) as (fuel & evs & Hrun & Hcat & _ & _).
  fold src in Hrun. exists fuel. cbv zeta.
  set (r := backup_and_restore_index src tgt om fuel se sk sn te tk tn (schema, ∅)).
  assert (last (key_fields (fields (get_index src sn))) = Some kf) as Hkf
    by exact key_field_found.
  assert (∀ t p, Forall (λ item, succeeded item = true)
                   (upload_documents tgt t p).1) as Hok.
  { intros t p. apply upload_all_accepts. }
  assert (∀ t p, length (upload_documents tgt t p).1 = length p) as Hlen.
  { intros t p. apply upload_all_length. }
  pose proof (progress_inv_run src tgt om Hlen fuel se sk sn te tk tn (schema, ∅))
    as [_ Hn].
  destruct (run_trace src tgt om fuel se sk sn te tk tn (schema, ∅) kf)
    as (post & Htr & _ & _ & _ & Hret); [done|].
  fold r in Hn, Htr, Hret.
  assert (all_documents kf = with_filter (name kf) NotStarted) as Hgen.
  { unfold all_documents. by rewrite key_field_capable. }
  rewrite Hgen in Hret.
  assert (∃ v, r.1 = Returned v
               ∧ target r.2 = (Some (rename tn index), stored (name kf) docs)
               ∧ failed_documents r.2 = 0) as (v & Hv & Ht & Hf).
  { subst r. rewrite (run_with_key_field _ _ _ _ _ _ _ _ _ _ _ kf Hkf).
    unfold restore_with_key_field. rewrite Hgen.
    match goal with
    | |- context [restore_pages src tgt om fuel ?g ?s0] =>
        pose proof (restore_pages_accepting src tgt om Hok fuel g s0)
          as (Hst & _ & Htgt & _ & Hfd & _);
        assert (target s0 = (Some (rename tn index), ∅)) as Ht0
          by (cbn; repeat case_match; done);
        rewrite Ht0 in Htgt;
        destruct (restore_pages src tgt om fuel g s0) as [[g1|e|] s1]
    end; cbn [fst snd] in *; rewrite Hrun in Hst; try done.
    eexists. split; [done|].
    destruct (summary_locals sn tn s1) as (-> & _ & _).
    split.
    - rewrite summary_target. rewrite Hrun in Htgt. simpl in Htgt.
      rewrite Htgt. unfold tgt at 1. rewrite upload_pages_accepting. simpl.
      rewrite Hcat.
      f_equal. apply stored_of_permutation; [done|].
      apply merge_sort_Permutation.
    - rewrite Hfd. by repeat case_match. }
  split_and!; [by exists v|done| |done].
  destruct (Hret v Hv) as (Hu & _ & _).
  rewrite Hn, Htr, uploaded_app, uploaded_preamble. simpl.
  rewrite Hu, Hrun. simpl.
  rewrite <- (Permutation_length (merge_sort_Permutation (doc_le key_le (name kf)) docs)).
  rewrite <- Hcat. clear. induction (yielded evs) as [|p ps IH]; simpl; [done|].
  rewrite length_app. lia.
Qed.
End round_trip.

(** X11. Round trip.  From a source whose key field is sortable and
    filterable, with pairwise different key values present in every
    document, into an empty target that accepts every document: the run
    returns, the target holds the source definition under the target name
    and every source document under its key, and nothing else; the
    progress counter ends at the number of documents, no failure is
    counted, and [verify_counts] then prints "Document counts match.". *)
Theorem backup_round_trip
    (key_le : relation string)
    `{!RelDecision key_le, !PartialOrder key_le, !Total key_le}
    (index : search_index) (docs : list document) (cap : nat)
    (kf : search_field) (om : object_model)
    (se sk sn te tk tn : string) (schema : option search_index) :
  last (key_fields (fields index)) = Some kf →
  can_use_filter kf = true →
  0 < cap →
  NoDup (field_value (name kf) <$> docs) →
  Forall (λ d, is_Some (d !! name kf)) docs →
  let src := reference_source key_le index docs cap in
  let tgt := reference_target (name kf) accepts_all in
  ∃ fuel,
    let r := backup_and_restore_index src tgt om fuel se sk sn te tk tn
               (schema, ∅) in
    (∃ v, r.1 = Returned v)
    ∧ target r.2 = (Some (rename tn index), stored (name kf) docs)
    ∧ (∀ d, d ∈ docs → (target r.2).2 !! field_value (name kf) d = Some d)
    ∧ target_document_count tgt (target r.2) = length docs
    ∧ progress_n r.2 = length docs
    ∧ failed_documents r.2 = 0
    ∧ "Document counts match." ∈ (verify_counts src tgt (target r.2)).2.
Proof.
  intros Hkf Hcan Hcap Hnd Hkeys src tgt.
  destruct (round_trip_run key_le index docs cap kf om se sk sn te tk tn schema
              Hkf Hcan Hcap Hnd Hkeys) as (fuel & Hret & Ht & Hn & Hf).
  exists fuel. cbv zeta in *. fold src tgt in Hret, Ht, Hn, Hf.
  assert (size (stored (name kf) docs) = length docs) as Hsize.
  { unfold stored. rewrite map_size_list_to_map, length_fmap; [done|].
    by rewrite keyed_fst. }
  split_and!; [done|done| | |done|done|]; rewrite Ht.
  - intros d Hd. simpl. unfold stored. apply elem_of_list_to_map_1.
    + by rewrite keyed_fst.
    + apply list_elem_of_fmap. by exists d.
  - done.
  - unfold verify_counts. simpl. rewrite Hsize.
    rewrite bool_decide_eq_true_2 by done. set_solver.
Qed.

Lemma backup_round_trip_witness :
  let src := reference_source String.le sample_index sample_docs 2 in
  let tgt := reference_target "id" accepts_all in
  ∃ fuel,
    let r := backup_and_restore_index src tgt sdk_objects fuel
               "se" "sk" "source" "te" "tk" "target" (None, ∅) in
    (∃ v, r.1 = Returned v)
    ∧ target r.2 = (Some (rename "target" sample_index), stored "id" sample_docs)
    ∧ (∀ d, d ∈ sample_docs → (target r.2).2 !! field_value "id" d = Some d)
    ∧ target_document_count tgt (target r.2) = length sample_docs
    ∧ progress_n r.2 = length sample_docs
    ∧ failed_documents r.2 = 0
    ∧ "Document counts match." ∈ (verify_counts src tgt (target r.2)).2.
Proof.
  apply (backup_round_trip String.le sample_index sample_docs 2 id_field
           sdk_objects "se" "sk" "source" "te" "tk" "target" None).
  - reflexivity.
  - reflexivity.
  - lia.
  - by_decide.
  - by_decide.
Defined.

(** * Collections within and beyond the limit of one query *)

#[local] Opaque top_limit.

Lemma concat_paged {A} (cap : nat) (hits : list A) :
  0 < cap → concat (paged cap hits) = hits.
Proof.
  intros Hcap. destruct hits as [|x hits]; [done|].
  by apply paged_spec.
Qed.

Lemma unfiltered_answer key_le `{!RelDecision key_le} index docs cap :
  by_page (search (reference_source key_le index docs cap) unfiltered_request)
  = paged cap (take (N.to_nat top_limit) docs).
Proof.
  simpl. unfold reference_search. simpl.
  rewrite filter_all; [done|]. by apply Forall_forall.
Qed.

(** X12. Without filter, the export is the first 100,000 documents the
    service lists, from one query: all of the collection when it has at
    most that many documents, and exactly 100,000 of them, the rest left
    out, when it has more. *)
Theorem unfiltered_mode_exports_at_most_the_limit
    (key_le : relation string) `{!RelDecision key_le}
    (index : search_index) (docs : list document) (cap : nat) :
  0 < cap →
  let src := reference_source key_le index docs cap in
  let run := gen_run src (2 + length (by_page (search src unfiltered_request)))
               {| mode := WithoutFilter; frame := NotStarted |} in
  run.2 = GFinished
  ∧ queries run.1 = [unfiltered_request]
  ∧ concat (yielded run.1) = take (N.to_nat top_limit) docs
  ∧ (length docs ≤ N.to_nat top_limit → concat (yielded run.1) = docs)
  ∧ (N.to_nat top_limit < length docs →
       length (concat (yielded run.1)) = N.to_nat top_limit).
Proof.
  intros Hcap src run. subst run. rewrite without_filter_run.
  cbn [fst snd]. unfold src. rewrite unfiltered_answer.
  assert (yielded (GQuery unfiltered_request
                     :: (GYield <$> paged cap (take (N.to_nat top_limit) docs)))
          = paged cap (take (N.to_nat top_limit) docs)) as ->.
  { change (yielded (?e :: ?l)) with (yielded l). apply yielded_pages. }
  assert (queries (GQuery unfiltered_request
                     :: (GYield <$> paged cap (take (N.to_nat top_limit) docs)))
          = [unfiltered_request]) as ->.
  { change (queries (GQuery ?q :: ?l)) with (q :: queries l).
    by rewrite queries_pages. }
  rewrite concat_paged by done.
  split_and!; [done..| |].
  - intros Hle. by apply take_ge.
  - intros Hlt. rewrite length_take. lia.
Qed.

Lemma unfiltered_mode_exports_at_most_the_limit_witness :
  let src := reference_source String.le unsortable_index sample_docs 2 in
  let run := gen_run src (2 + length (by_page (search src unfiltered_request)))
               {| mode := WithoutFilter; frame := NotStarted |} in
  run.2 = GFinished
  ∧ queries run.1 = [unfiltered_request]
  ∧ concat (yielded run.1) = take (N.to_nat top_limit) sample_docs
  ∧ (length sample_docs ≤ N.to_nat top_limit → concat (yielded run.1) = sample_docs)
  ∧ (N.to_nat top_limit < length sample_docs →
       length (concat (yielded run.1)) = N.to_nat top_limit).
Proof.
  apply (unfiltered_mode_exports_at_most_the_limit String.le unsortable_index
           sample_docs 2).
  lia.
Defined.

Section within_limit.
Context (key_le : relation string).
Context `{!RelDecision key_le, !PartialOrder key_le, !Total key_le}.
Context (index : search_index) (docs : list document) (cap : nat).
Context (kf : string).
Hypothesis cap_pos : 0 < cap.
Hypothesis within_limit : length docs ≤ N.to_nat top_limit.
Hypothesis keys_present : Forall (λ d, is_Some (d !! kf)) docs.

Let src := reference_source key_le index docs cap.
Let sorted := merge_sort (doc_le key_le kf) docs.

Lemma nothing_after_the_last a :
  last sorted = Some a →
  filter (matches key_le (Some (FieldGt kf (field_value kf a)))) sorted = [].
Proof.
  intros Hlast. apply last_Some in Hlast as [init Hsplit].
  pose proof (sorted_strongly key_le docs kf) as Hs. fold sorted in Hs.
  apply filter_none, Forall_forall. intros x Hx.
  assert (doc_le key_le kf x a) as Hle.
  { rewrite Hsplit in Hx, Hs. apply elem_of_app in Hx as [Hx|Hx].
    - eapply (StronglySorted_app_1_elem_of _ init [a]); [done..|by left].
    - apply list_elem_of_singleton in Hx as ->. unfold doc_le. reflexivity. }
  unfold matches, doc_le, field_value in *.
  destruct (x !! kf); simpl in *; [intros H; by apply H|by intros ?].
Qed.

Lemma small_collection_run :
  ∃ fuel evs,
    gen_run src fuel (with_filter kf NotStarted) = (evs, GFinished)
    ∧ concat (yielded evs) = sorted
    ∧ length (queries evs) ≤ 2.
Proof.
  assert (take (N.to_nat top_limit) sorted = sorted) as Htake.
  { apply take_ge. unfold sorted.
    by rewrite (Permutation_length (merge_sort_Permutation _ docs)). }
  pose proof (first_answer key_le index docs cap kf) as Hfirst.
  fold src sorted in Hfirst. rewrite Htake in Hfirst.
  destruct (last sorted) as [a|] eqn:Hlast.
  - assert (sorted ≠ []) as Hne by (intros Heq; by rewrite Heq in Hlast).
    destruct (paged_spec cap sorted cap_pos Hne) as (Hcat & _ & Hall).
    assert (is_Some (a !! kf)) as [v Hv].
    { assert (a ∈ docs) as Ha.
      { rewrite <- (merge_sort_Permutation (doc_le key_le kf) docs).
        fold sorted. apply last_Some in Hlast as [init ->]. set_solver. }
      by eapply Forall_forall in keys_present. }
    assert (field_value kf a = v) as Hfv by (unfold field_value; by rewrite Hv).
    assert (by_page (search src (next_request kf v)) = [[]]) as Hnext.
    { simpl. unfold reference_search. simpl. fold sorted.
      by rewrite <- Hfv, (nothing_after_the_last a Hlast), take_nil. }
    exists (S (length (paged cap sorted) + 3)),
           (GQuery (first_request kf)
              :: (GYield <$> paged cap sorted) ++ [GQuery (next_request kf v)]).
    rewrite gen_run_step.
    change (gen_step src (with_filter kf NotStarted))
      with (Queried (first_request kf)
              (InResponse None (by_page (search src (first_request kf))))).
    cbv beta iota.
    change (resume (with_filter kf NotStarted) ?f) with (with_filter kf f).
    rewrite Hfirst.
    rewrite with_filter_pages
      by (eapply Forall_impl; [exact Hall|]; by intros ? []).
    rewrite Hcat, Hlast. simpl from_option.
    rewrite (cursor_step src kf a v 2 Hv), Hnext.
    change (gen_run src 2 (with_filter kf (InResponse (Some a) [[]])))
      with (@nil gen_event, GFinished).
    cbn [fst snd]. split_and!; [done| |].
    + change (yielded (GQuery ?q :: ?l)) with (yielded l).
      rewrite yielded_app, yielded_pages. simpl. by rewrite !app_nil_r.
    + change (queries (GQuery ?q :: ?l)) with (q :: queries l).
      rewrite queries_app, queries_pages. simpl. lia.
  - apply last_None in Hlast. rewrite Hlast in Hfirst |- *.
    exists 3, [GQuery (first_request kf)].
    rewrite gen_run_step.
    change (gen_step src (with_filter kf NotStarted))
      with (Queried (first_request kf)
              (InResponse None (by_page (search src (first_request kf))))).
    cbv beta iota. rewrite Hfirst.
    split_and!; [done|done|simpl; lia].
Qed.
End within_limit.

#[local] Transparent top_limit.

(** X13. For a collection of at most 100,000 documents that all carry the
    key field, the range-filtered generator needs no more than two queries
    and yields every document, in ascending key order, also when key values
    repeat: the one follow-up query, past the greatest key, comes back
    empty. *)
Theorem with_filter_small_collection_needs_two_queries
    (key_le : relation string)
    `{!RelDecision key_le, !PartialOrder key_le, !Total key_le}
    (index : search_index) (docs : list document) (cap : nat) (kf : string) :
  0 < cap →
  length docs ≤ N.to_nat top_limit →
  Forall (λ d, is_Some (d !! kf)) docs →
  ∃ fuel evs,
    gen_run (reference_source key_le index docs cap) fuel
      (with_filter kf NotStarted) = (evs, GFinished)
    ∧ concat (yielded evs) ≡ₚ docs
    ∧ StronglySorted (doc_le key_le kf) (concat (yielded evs))
    ∧ length (queries evs) ≤ 2.
Proof.
  intros Hcap Hlen Hkeys.
  destruct (small_collection_run key_le index docs cap kf Hcap Hlen Hkeys)
    as (fuel & evs & Hrun & Hcat & Hq).
  exists fuel, evs. rewrite Hcat. split_and!; [done| | |done].
  - apply merge_sort_Permutation.
  - by apply sorted_strongly.
Qed.

Lemma with_filter_small_collection_needs_two_queries_witness :
  ∃ fuel evs,
    gen_run (reference_source String.le sample_index
               [doc "k5"; doc "k4"; doc "k5"] 2) fuel
      (with_filter "id" NotStarted) = (evs, GFinished)
    ∧ concat (yielded evs) ≡ₚ [doc "k5"; doc "k4"; doc "k5"]
    ∧ StronglySorted (doc_le String.le "id") (concat (yielded evs))
    ∧ length (queries evs) ≤ 2.
Proof.
  apply (with_filter_small_collection_needs_two_queries String.le sample_index
           [doc "k5"; doc "k4"; doc "k5"] 2 "id").
  - lia.
  - unfold top_limit. simpl length. lia.
  - by_decide.
Defined.

(** * An empty source collection *)

#[local] Opaque top_limit.

Lemma empty_answer key_le `{!RelDecision key_le} index cap req :
  by_page (search (reference_source key_le index [] cap) req) = [[]].
Proof.
  simpl. unfold reference_search.
  assert (ordered key_le (order_by req) [] = []) as ->
    by (by destruct (order_by req)).
  by rewrite filter_nil, take_nil.
Qed.

Lemma restore_pages_step {T} src (tgt : target_service T) om fuel g s :
  restore_pages src tgt om (S fuel) g s
  = match gen_step src g with
    | Finished => (Returned (resume g Exhausted), s)
    | GenRaised e => (Raised e, s)
    | Skipped f => restore_pages src tgt om fuel (resume g f) s
    | Queried req f =>
        restore_pages src tgt om fuel (resume g f) (emit (EvSearch req) s)
    | Yielded p f =>
        match restore_page tgt om p s with
        | (Some e, s) => (Raised e, s)
        | (None, s) => restore_pages src tgt om fuel (resume g f) s
        end
    end.
Proof. done. Qed.

Lemma restore_empty_page {T} (tgt : target_service T) om (s : run_state T) :
  (∀ t p, length (upload_documents tgt t p).1 = length p) →
  ∃ s', restore_page tgt om [] s = (None, s')
        ∧ uploaded (trace s') = uploaded (trace s) ++ [[]]
        ∧ failed_documents s' = failed_documents s.
Proof.
  intros Hlen. unfold restore_page. specialize (Hlen (target s) []).
  destruct (upload_documents tgt (target s) []) as [result t'].
  destruct result; [|done]. simpl. eexists. split; [done|].
  simpl. rewrite !uploaded_app. simpl. by rewrite !app_nil_r.
Qed.

Section empty_collection.
Context {T : Type}.
Context (key_le : relation string) `{!RelDecision key_le}.
Context (index : search_index) (cap : nat).
Context (tgt : target_service T) (om : object_model).
Hypothesis one_result_per_document :
  ∀ t p, length (upload_documents tgt t p).1 = length p.

Let src := reference_source key_le index [] cap.

Lemma empty_with_filter fuel kf (s : run_state T) :
  ∃ g, restore_pages src tgt om (3 + fuel) (with_filter kf NotStarted) s
       = (Returned g, emit (EvSearch (first_request kf)) s).
Proof.
  change (3 + fuel) with (S (S (S fuel))).
  rewrite restore_pages_step.
  change (gen_step src (with_filter kf NotStarted))
    with (Queried (first_request kf)
            (InResponse None (by_page (search src (first_request kf))))).
  cbv beta iota. unfold src at 2. rewrite empty_answer.
  rewrite restore_pages_step.
  change (gen_step src (resume (with_filter kf NotStarted) (InResponse None [[]])))
    with (Skipped (InResponse None [])).
  cbv beta iota. rewrite restore_pages_step.
  change (gen_step src (resume _ (InResponse None []))) with Finished.
  cbv beta iota. by eexists.
Qed.

Lemma empty_without_filter fuel (s : run_state T) :
  ∃ g s', restore_pages src tgt om (3 + fuel)
            {| mode := WithoutFilter; frame := NotStarted |} s
          = (Returned g, s')
          ∧ uploaded (trace s') = uploaded (trace s) ++ [[]]
          ∧ failed_documents s' = failed_documents s.
Proof.
  change (3 + fuel) with (S (S (S fuel))).
  rewrite restore_pages_step.
  change (gen_step src {| mode := WithoutFilter; frame := NotStarted |})
    with (Queried unfiltered_request
            (InResponse None (by_page (search src unfiltered_request)))).
  cbv beta iota. unfold src at 2. rewrite empty_answer.
  rewrite restore_pages_step.
  change (gen_step src (resume {| mode := WithoutFilter; frame := NotStarted |}
                          (InResponse None [[]])))
    with (Yielded [] (InResponse None [])).
  cbv beta iota.
  destruct (restore_empty_page tgt om (emit (EvSearch unfiltered_request) s)
              one_result_per_document) as (s1 & -> & Hu1 & Hf1).
  rewrite restore_pages_step.
  change (gen_step src (resume _ (InResponse None []))) with Finished.
  cbv beta iota. eexists _, s1. split; [done|]. split; [|done].
  rewrite Hu1. simpl. by rewrite uploaded_app, app_nil_r.
Qed.
End empty_collection.

(** X14. Over an empty source collection the run returns without a counted
    failure; paging with the range filter it uploads nothing, while paging
    without filter it submits one upload, of the single empty page the
    service answers with. *)
Theorem empty_collection_run {T}
    (key_le : relation string) `{!RelDecision key_le}
    (index : search_index) (cap : nat)
    (tgt : target_service T) (om : object_model)
    (fuel : nat) (se sk sn te tk tn : string) (t : T) (kf : search_field) :
  last (key_fields (fields index)) = Some kf →
  (∀ t p, length (upload_documents tgt t p).1 = length p) →
  let src := reference_source key_le index [] cap in
  let r := backup_and_restore_index src tgt om (3 + fuel) se sk sn te tk tn t in
  (∃ v, r.1 = Returned v)
  ∧ uploaded (trace r.2) = (if can_use_filter kf then [] else [[]])
  ∧ failed_documents r.2 = 0.
Proof.
  intros Hkf Hlen src r. subst r.
  assert (last (key_fields (fields (get_index src sn))) = Some kf) as Hkf'
    by exact Hkf.
  rewrite (run_with_key_field _ _ _ _ _ _ _ _ _ _ _ kf Hkf').
  unfold restore_with_key_field.
  match goal with
  | |- context [restore_pages src tgt om (3 + fuel) ?g ?s0] =>
      set (st := s0);
      assert (uploaded (trace st) = [] ∧ failed_documents st = 0) as [Hu0 Hf0]
        by (subst st; cbn; by repeat case_match);
      clearbody st
  end.
  unfold all_documents. destruct (can_use_filter kf).
  - destruct (empty_with_filter key_le index cap tgt om fuel (name kf) st)
      as [g Hrun].
    fold src in Hrun. unfold with_filter in Hrun. rewrite Hrun. cbn [fst snd].
    rewrite summary_trace.
    destruct (summary_locals sn tn (emit (EvSearch (first_request (name kf))) st))
      as (-> & _ & _).
    split_and!; [by eexists| |done].
    simpl. by rewrite !uploaded_app, uploaded_prints, Hu0.
  - destruct (empty_without_filter key_le index cap tgt om Hlen fuel st)
      as (g & s1 & Hrun & Hu1 & Hf1).
    fold src in Hrun. rewrite Hrun. cbn [fst snd].
    rewrite summary_trace. destruct (summary_locals sn tn s1) as (-> & _ & _).
    split_and!; [by eexists| |by rewrite Hf1].
    by rewrite uploaded_app, uploaded_prints, Hu1, Hu0.
Qed.

#[local] Transparent top_limit.

Lemma empty_collection_run_witness :
  let src := reference_source String.le unsortable_index [] 2 in
  let r := backup_and_restore_index src (reference_target "id" rejects_k5)
             sdk_objects (3 + 0) "se" "sk" "source" "te" "tk" "target" no_store in
  (∃ v, r.1 = Returned v)
  ∧ uploaded (trace r.2)
    = (if can_use_filter unsortable_id_field then [] else [[]])
  ∧ failed_documents r.2 = 0.
Proof.
  apply (empty_collection_run String.le unsortable_index 2
           (reference_target "id" rejects_k5) sdk_objects 0
           "se" "sk" "source" "te" "tk" "target" no_store unsortable_id_field).
  - reflexivity.
  - intros t p. simpl. apply upload_all_length.
Defined.

(** * The scan of the fields *)

(** X15. The scan of the index definition collects exactly the fields with
    [hidden == True], in schema order; it leaves [key_field] unbound
    exactly when no field has [key == True]; and a bound [key_field] is a
    field of the definition that is marked as key. *)
Theorem scan_fields_collects_hidden_and_key (fs : list search_field) :
  (scan_fields fs).1 = hidden_fields fs
  ∧ ((scan_fields fs).2 = None ↔ Forall (λ f, key f ≠ Some true) fs)
  ∧ (∀ kf, (scan_fields fs).2 = Some kf → kf ∈ fs ∧ key kf = Some true).
Proof.
  rewrite scan_fields_spec. simpl. split; [done|]. split.
  - rewrite last_None. unfold key_fields. split.
    + intros Hnil. apply Forall_forall. intros f Hf Hkey.
      assert (f ∈ filter (λ f, is_true (key f)) fs) as Hin.
      { apply list_elem_of_filter. split; [|done]. by rewrite Hkey. }
      rewrite Hnil in Hin. by apply elem_of_nil in Hin.
    + apply no_key_field_filter.
  - intros kf Hlast. apply last_Some in Hlast as [init Hsplit].
    assert (kf ∈ key_fields fs) as Hin by (rewrite Hsplit; set_solver).
    unfold key_fields in Hin. apply list_elem_of_filter in Hin as [Hkey Hin].
    split; [done|]. by destruct (key kf) as [[]|].
Qed.

(** * No empty upload in range-filtered mode *)

(** X3. Whatever the service answers, the range-filtered generator never
    yields an empty page, and so a run whose key field is sortable and
    filterable never submits an empty upload. *)
Theorem with_filter_never_yields_empty_page {T}
    (src : source_service) (tgt : target_service T) (om : object_model)
    (fuel : nat) (se sk sn te tk tn : string) (t : T) (kf : search_field) :
  last (key_fields (fields (get_index src sn))) = Some kf →
  can_use_filter kf = true →
  (∀ n f, Forall (λ p : page, p ≠ [])
            (yielded (gen_run src n (with_filter (name kf) f)).1))
  ∧ Forall (λ p : page, p ≠ [])
      (uploaded (trace (backup_and_restore_index src tgt om fuel
                          se sk sn te tk tn t).2)).
Proof.
  intros Hkf Hcan. split; [intros n f; apply with_filter_yields_nonempty|].
  destruct (run_trace src tgt om fuel se sk sn te tk tn t kf Hkf)
    as (post & -> & _ & [rest Hu] & _).
  rewrite uploaded_app, uploaded_preamble. simpl.
  pose proof (with_filter_yields_nonempty src (name kf) fuel NotStarted) as Hall.
  unfold all_documents in Hu. rewrite Hcan in Hu.
  change {| mode := WithFilter (name kf); frame := NotStarted |}
    with (with_filter (name kf) NotStarted) in Hu.
  rewrite Hu in Hall. by apply Forall_app in Hall as [Hall _].
Qed.

Lemma with_filter_never_yields_empty_page_witness :
  let src := reference_source String.le sample_index sample_docs 2 in
  (∀ n f, Forall (λ p : page, p ≠ [])
            (yielded (gen_run src n (with_filter (name id_field) f)).1))
  ∧ Forall (λ p : page, p ≠ [])
      (uploaded (trace (backup_and_restore_index src
                          (reference_target "id" rejects_k5) sdk_objects 20
                          "se" "sk" "source" "te" "tk" "target" no_store).2)).
Proof.
  apply (with_filter_never_yields_empty_page
           (reference_source String.le sample_index sample_docs 2));
    reflexivity.
Defined.

(** * The count query *)

(** X16. Against the reference service [total_count] is the number of
    documents of the collection, whatever their order and the page size,
    and its query brings back no document: the answer is one empty page. *)
Theorem total_count_counts_without_fetching
    (key_le : relation string) `{!RelDecision key_le}
    (index : search_index) (docs : list document) (cap : nat) :
  let src := reference_source key_le index docs cap in
  total_count src = Some (length docs)
  ∧ by_page (search src total_count_request) = [[]]
  ∧ total_count src = Some (get_document_count src).
Proof.
  simpl. unfold total_count. simpl. unfold reference_search. simpl.
  rewrite filter_all by (by apply Forall_forall). done.
Qed.


(** * Termination without unique keys *)

Lemma filter_shrinks {A} (P Q : A → Prop)
    `{!∀ x, Decision (P x), !∀ x, Decision (Q x)} (l : list A) (x : A) :
  (∀ y, y ∈ l → P y → Q y) → x ∈ l → Q x → ¬ P x →
  length (filter P l) < length (filter Q l).
Proof.
  intros Himp Hx HQ HP.
  assert (∀ l', (∀ y, y ∈ l' → P y → Q y) →
            length (filter P l') ≤ length (filter Q l')) as Hle.
  { induction l' as [|y l' IH]; intros Hl'; [done|].
    rewrite !filter_cons.
    assert (length (filter P l') ≤ length (filter Q l')) as Hrec
      by (apply IH; intros z Hz; apply Hl'; by right).
    destruct (decide (P y)) as [Hy|Hy].
    - rewrite decide_True by (apply Hl'; [by left|done]). simpl. lia.
    - destruct (decide (Q y)); simpl; lia. }
  induction l as [|y l IH]; [by apply elem_of_nil in Hx|].
  rewrite !filter_cons.
  assert (length (filter P l) ≤ length (filter Q l)) as Hrec
    by (apply Hle; intros z Hz; apply Himp; by right).
  apply elem_of_cons in Hx as [<-|Hx].
  - rewrite decide_False, decide_True by done. simpl. lia.
  - assert (length (filter P l) < length (filter Q l)) as Hlt
      by (apply IH; [intros z Hz; apply Himp; by right|done]).
    destruct (decide (P y)) as [Hy|Hy].
    + rewrite decide_True by (apply Himp; [by left|done]). simpl. lia.
    + destruct (decide (Q y)); simpl; lia.
Qed.

#[local] Opaque top_limit.

Section any_keys.
Context (key_le : relation string).
Context `{!RelDecision key_le, !PartialOrder key_le, !Total key_le}.
Context (index : search_index) (docs : list document) (cap : nat).
Context (kf : string).
Hypothesis cap_pos : 0 < cap.
Hypothesis keys_present : Forall (λ d, is_Some (d !! kf)) docs.

Let src := reference_source key_le index docs cap.
Let sorted := merge_sort (doc_le key_le kf) docs.

Lemma cursor_answer v :
  by_page (search src (next_request kf v))
  = paged cap (take (N.to_nat top_limit)
                 (filter (matches key_le (Some (FieldGt kf v))) sorted)).
Proof. done. Qed.

Lemma later_filter_is_smaller flt (a : document) v :
  flt = None ∨ (∃ w, flt = Some (FieldGt kf w)) →
  a ∈ sorted → a !! kf = Some v → matches key_le flt a →
  length (filter (matches key_le (Some (FieldGt kf v))) sorted)
  < length (filter (matches key_le flt) sorted).
Proof.
  intros Hflt Ha Hv Hm. apply (filter_shrinks _ _ _ a); [|done..|].
  - intros y _ Hy. destruct Hflt as [->|[w ->]]; [done|].
    simpl in *. rewrite Hv in Hm. destruct (y !! kf) as [ky|]; [|done].
    intros Hle. apply Hy.
    destruct (total key_le w v) as [Hwv|Hvw]; [|done].
    by etrans.
  - simpl. rewrite Hv. by intros [].
Qed.

Lemma run_from_answer n : ∀ flt li,
  length (filter (matches key_le flt) sorted) ≤ n →
  flt = None ∨ (∃ w, flt = Some (FieldGt kf w)) →
  ∃ fuel evs,
    gen_run src fuel
      (with_filter kf
         (InResponse li
            (paged cap (take (N.to_nat top_limit)
                          (filter (matches key_le flt) sorted)))))
    = (evs, GFinished)
    ∧ Forall (λ d, d ∈ docs) (concat (yielded evs))
    ∧ ends_at_first_empty_page
        (paged cap (take (N.to_nat top_limit)
                      (filter (matches key_le flt) sorted))
           :: fetches src evs).
Proof.
  induction n as [|n IH]; intros flt li Hlen Hflt;
    set (R := filter (matches key_le flt) sorted) in *.
  - destruct R; [|simpl in Hlen; lia].
    exists 2, []. split_and!; try done. apply ends_at_first_empty_page_last.
  - destruct R as [|r R'] eqn:HR;
      [exists 2, []; split_and!; try done; apply ends_at_first_empty_page_last|].
    rewrite <- HR in *.
    set (hits := take (N.to_nat top_limit) R).
    assert (hits ≠ []) as Hhits.
    { unfold hits. rewrite HR. pose proof top_limit_pos.
      destruct (N.to_nat top_limit); [lia|done]. }
    destruct (paged_spec cap hits cap_pos Hhits) as (Hcat & Hne & Hall).
    assert (∀ d, d ∈ hits → matches key_le flt d ∧ d ∈ sorted) as Hin.
    { intros d Hd.
      assert (d ∈ R) as HdR.
      { rewrite <- (take_drop (N.to_nat top_limit) R). apply elem_of_app. by left. }
      unfold R in HdR. by apply list_elem_of_filter in HdR. }
    assert (∀ d, d ∈ sorted → d ∈ docs) as Hdocs.
    { intros d. unfold sorted.
      by rewrite (merge_sort_Permutation (doc_le key_le kf) docs). }
    destruct (last hits) as [a|] eqn:Hlast; [|by apply last_None in Hlast].
    assert (a ∈ hits) as Ha.
    { apply last_Some in Hlast as [init ->]. apply elem_of_app. right. by left. }
    destruct (Hin a Ha) as [Ham Has].
    assert (is_Some (a !! kf)) as [v Hv].
    { eapply Forall_forall in keys_present; [done|]. by apply Hdocs. }
    destruct (IH (Some (FieldGt kf v)) (Some a))
      as (fuel & evs & Hrun & Hy & Hend).
    { pose proof (later_filter_is_smaller flt a v Hflt Has Hv Ham) as Hlt.
      fold R in Hlt. lia. }
    { right. by exists v. }
    exists (length (paged cap hits) + S fuel),
           ((GYield <$> paged cap hits) ++ GQuery (next_request kf v) :: evs).
    rewrite with_filter_pages
      by (eapply Forall_impl; [exact Hall|]; by intros ? []).
    rewrite Hcat, Hlast. simpl from_option.
    rewrite (cursor_step src kf a v fuel Hv), cursor_answer, Hrun.
    cbn [fst snd]. split_and!; [done| |].
    + rewrite yielded_app, yielded_pages.
      change (yielded (GQuery ?q :: ?l)) with (yielded l).
      rewrite concat_app, Hcat. apply Forall_app. split; [|done].
      apply Forall_forall. intros d Hd. apply Hdocs. by destruct (Hin d Hd).
    + apply ends_at_first_empty_page_cons; [done| |].
      * eapply Forall_impl; [exact Hall|]. by intros ? [].
      * unfold fetches. rewrite queries_app, queries_pages.
        change (queries (GQuery ?q :: ?l)) with (q :: queries l).
        rewrite app_nil_l, fmap_cons, cursor_answer. exact Hend.
Qed.

Lemma any_keys_run :
  ∃ fuel evs,
    gen_run src fuel (with_filter kf NotStarted) = (evs, GFinished)
    ∧ Forall (λ d, d ∈ docs) (concat (yielded evs))
    ∧ ends_at_first_empty_page (fetches src evs).
Proof.
  destruct (run_from_answer (length (filter (matches key_le None) sorted))
              None None) as (fuel & evs & Hrun & Hy & Hend); [done|by left|].
  exists (S fuel), (GQuery (first_request kf) :: evs).
  rewrite gen_run_step.
  change (gen_step src (with_filter kf NotStarted))
    with (Queried (first_request kf)
            (InResponse None
               (paged cap (take (N.to_nat top_limit)
                             (filter (matches key_le None) sorted))))).
  cbv beta iota.
  change (resume (with_filter kf NotStarted) ?f) with (with_filter kf f).
  rewrite Hrun. cbn [fst snd]. by split_and!.
Qed.
End any_keys.

#[local] Transparent top_limit.

(** X17. Paging with the range filter ends on every finite collection
    whose documents all carry the key field, also when key values repeat:
    each follow-up query leaves strictly fewer documents to match, the
    generator finishes at the first answer with an empty page, and what it
    yields are documents of the collection. *)
Theorem with_filter_terminates_without_unique_keys
    (key_le : relation string)
    `{!RelDecision key_le, !PartialOrder key_le, !Total key_le}
    (index : search_index) (docs : list document) (cap : nat) (kf : string) :
  0 < cap →
  Forall (λ d, is_Some (d !! kf)) docs →
  ∃ fuel evs,
    gen_run (reference_source key_le index docs cap) fuel
      (with_filter kf NotStarted) = (evs, GFinished)
    ∧ Forall (λ d, d ∈ docs) (concat (yielded evs))
    ∧ ends_at_first_empty_page
        (fetches (reference_source key_le index docs cap) evs).
Proof. intros Hcap Hkeys. by apply any_keys_run. Qed.

Lemma with_filter_terminates_without_unique_keys_witness :
  ∃ fuel evs,
    gen_run (reference_source String.le sample_index
               [doc "k5"; doc "k4"; doc "k5"] 2) fuel
      (with_filter "id" NotStarted) = (evs, GFinished)
    ∧ Forall (λ d, d ∈ [doc "k5"; doc "k4"; doc "k5"]) (concat (yielded evs))
    ∧ ends_at_first_empty_page
        (fetches (reference_source String.le sample_index
                    [doc "k5"; doc "k4"; doc "k5"] 2) evs).
Proof.
  apply (with_filter_terminates_without_unique_keys String.le sample_index
           [doc "k5"; doc "k4"; doc "k5"] 2 "id").
  - lia.
  - by_decide.
Defined.
